(** * Inter-hart signalling of the tCore SBI firmware

    A shallow embedding of the CLINT software-interrupt driver
    (devices/clint/clint.c), the memory-mapped I/O accessors (include/io.h),
    the byte copies of libs/string.c and main.c, the mailbox exchange of
    test_ipi / other_main / wait_ipi (main.c) and the boot barrier macros
    smp_pause / smp_resume (include/smp.h).

    Memory is byte addressed: a map from addresses to byte values (Z), with
    every load truncating to 8 bits and every store keeping the low 8 bits,
    as lb/sb and char accesses do.  Each operation runs in a small
    state-and-trace monad: it reads and updates the machine (memory plus the
    static [clint_base] of clint.c) and records the observable events
    (loads, stores, fences, CSR accesses, wfi, console output) in program
    order. *)

From Stdlib Require Import ZArith List Lia String Bool.
Import ListNotations.
Open Scope Z_scope.

(** ** Configuration constants (mem.h, clint.h, smp.h, riscv.h, console.h) *)

Definition CLINT_CTRL_ADDR : Z := 33554432.      (* 0x2000000 *)
Definition CLINT_MSIP_OFFSET : Z := 0.
Definition CLINT_MSIP_SIZE : Z := 4.
Definition CLINT_MTIMECMP_OFFSET : Z := 16384.   (* 0x4000 *)
Definition CLINT_MTIMECMP_SIZE : Z := 8.
Definition CLINT_MTIME_OFFSET : Z := 49144.      (* 0xbff8 *)
Definition SMP_ADDR : Z := 2148532224.           (* 0x80100000 *)
Definition SMP_SIZE : Z := 4096.                 (* 0x1000 *)
Definition MAX_HARTS : Z := 5.
Definition ZERO_HART : Z := 0.
Definition CLINT_END_HART_IPI : Z := CLINT_CTRL_ADDR + MAX_HARTS * CLINT_MSIP_SIZE.
Definition IRQ_M_SOFT : Z := 3.
Definition MIP_MSIP : Z := Z.shiftl 1 IRQ_M_SOFT.
Definition BUFSIZE : Z := 1024.

(** ** Machine state and events *)

Definition mem := Z -> Z.

Definition upd (m : mem) (a v : Z) : mem :=
  fun x => if Z.eqb x a then v else m x.

Definition load8 (m : mem) (a : Z) : Z := Z.land (m a) 255.

Definition store8 (m : mem) (a v : Z) : mem := upd m a (Z.land v 255).

(** 32-bit little-endian accesses (sw / lw). *)
Definition store32 (m : mem) (a v : Z) : mem :=
  store8 (store8 (store8 (store8 m a v) (a + 1) (Z.shiftr v 8))
                 (a + 2) (Z.shiftr v 16)) (a + 3) (Z.shiftr v 24).

Definition load32 (m : mem) (a : Z) : Z :=
  load8 m a + Z.shiftl (load8 m (a + 1)) 8 + Z.shiftl (load8 m (a + 2)) 16
  + Z.shiftl (load8 m (a + 3)) 24.

Record machine := mkMachine { memory : mem; clint_base : Z }.

Definition set_memory (s : machine) (m : mem) : machine :=
  mkMachine m (clint_base s).

(** Fence access classes: [fence i,r] and [fence w,o] of io.h. *)
Inductive access := AccI | AccO | AccR | AccW.

Inductive csr := CSR_mip | CSR_mie.

Inductive event :=
| EvFence (pred succ : list access)
| EvLoad (width addr val : Z)
| EvStore (width addr val : Z)
| EvCsrRead (c : csr) (v : Z)
| EvCsrWrite (c : csr) (v : Z)
| EvCsrSet (c : csr) (v : Z)
| EvWfi
| EvPuts (s : string)
| EvPutc (c : Z)
| EvPutHex (x : Z).

(** ** The state-and-trace monad.  [None] is a computation that does not
    finish: a loop that ran out of its fuel, or a hart with no next step. *)

Definition M (A : Type) := machine -> option (A * machine * list event).

Definition ret {A} (x : A) : M A := fun s => Some (x, s, []).

Definition bind {A B} (c : M A) (f : A -> M B) : M B :=
  fun s =>
    match c s with
    | None => None
    | Some (x, s1, e1) =>
        match f x s1 with
        | None => None
        | Some (y, s2, e2) => Some (y, s2, e1 ++ e2)
        end
    end.

Notation "x <- c ;; k" := (bind c (fun x => k))
  (at level 61, c at next level, right associativity).
Notation "c ;; k" := (bind c (fun _ => k))
  (at level 61, right associativity).

Definition emit (e : event) : M unit := fun s => Some (tt, s, [e]).

Definition stuck {A} : M A := fun _ => None.

(** ** io.h *)

Definition io_br : M unit := ret tt.
Definition io_ar : M unit := emit (EvFence [AccI] [AccR]).
Definition io_bw : M unit := emit (EvFence [AccW] [AccO]).
Definition io_aw : M unit := ret tt.

Definition raw_readb (a : Z) : M Z :=
  fun s => let v := load8 (memory s) a in Some (v, s, [EvLoad 1 a v]).

Definition raw_writeb (v a : Z) : M unit :=
  fun s => Some (tt, set_memory s (store8 (memory s) a v),
                 [EvStore 1 a (Z.land v 255)]).

Definition raw_readw (a : Z) : M Z :=
  fun s => let v := load32 (memory s) a in Some (v, s, [EvLoad 4 a v]).

Definition raw_writew (v a : Z) : M unit :=
  fun s => Some (tt, set_memory s (store32 (memory s) a v), [EvStore 4 a v]).

Definition readb (a : Z) : M Z := io_br ;; v <- raw_readb a ;; io_ar ;; ret v.
Definition writeb (v a : Z) : M unit := io_bw ;; raw_writeb v a ;; io_aw.
Definition readw (a : Z) : M Z := io_br ;; v <- raw_readw a ;; io_ar ;; ret v.
Definition writew (v a : Z) : M unit := io_bw ;; raw_writew v a ;; io_aw.

(** Plain C byte accesses ([*d++ = *s++]): the same loads and stores, with
    no fence around them. *)
Definition plain_load8 (a : Z) : M Z := raw_readb a.
Definition plain_store8 (a v : Z) : M unit := raw_writeb v a.

(** ** clint.c *)

Definition get_clint_base : M Z := fun s => Some (clint_base s, s, []).

Definition clint_init (base : Z) : M unit :=
  fun s => Some (tt, mkMachine (memory s) base, []).

Definition CLINT_SOFT (base hartid : Z) : Z :=
  base + hartid * CLINT_MSIP_SIZE + CLINT_MSIP_OFFSET.

Definition clint_check_soft (hartid : Z) : M Z :=
  b <- get_clint_base ;; readw (CLINT_SOFT b hartid).

Definition clint_send_soft (hartid : Z) : M unit :=
  b <- get_clint_base ;; writew 1 (CLINT_SOFT b hartid).

Definition clint_clear_soft (hartid : Z) : M unit :=
  b <- get_clint_base ;; writew 0 (CLINT_SOFT b hartid).

(** The spec's [is_pending]: the pending word read by clint_check_soft is
    non-zero. *)
Definition is_pending (hartid : Z) : M bool :=
  v <- clint_check_soft hartid ;; ret (negb (Z.eqb v 0)).

(** The msip register of a hart at the fixed controller address, and its
    pending word, as the barrier assembly addresses them. *)
Definition msip_addr (h : Z) : Z := CLINT_SOFT CLINT_CTRL_ADDR h.

Definition msip_word (m : mem) (h : Z) : Z := load32 m (msip_addr h).

(** Running a computation and keeping only its result / final state. *)
Definition result {A} (c : M A) (s : machine) : option A :=
  match c s with Some (x, _, _) => Some x | None => None end.

Definition final {A} (c : M A) (s : machine) : option machine :=
  match c s with Some (_, s', _) => Some s' | None => None end.

Definition trace {A} (c : M A) (s : machine) : option (list event) :=
  match c s with Some (_, _, e) => Some e | None => None end.

(** Two machines that agree on every byte and on the controller base. *)
Definition same_machine (s t : machine) : Prop :=
  clint_base s = clint_base t /\ forall a, memory s a = memory t a.

(** ** libs/string.c *)

(** [strlen]: [while ( *s++ != '\0') cnt++;].  The scan is bounded by
    [fuel]; running out of it stands for a scan that does not stop. *)
Fixpoint strlen_loop (fuel : nat) (p cnt : Z) : M Z :=
  match fuel with
  | O => stuck
  | S f =>
      c <- plain_load8 p ;;
      if Z.eqb c 0 then ret cnt else strlen_loop f (p + 1) (cnt + 1)
  end.

Definition strlen (fuel : nat) (s : Z) : M Z := strlen_loop fuel s 0.

(** [memcpy]: [while (n-- > 0) { *d++ = *s++; }]; [n] is a [size_t]. *)
Fixpoint memcpy_loop (n : nat) (d s : Z) : M unit :=
  match n with
  | O => ret tt
  | S n' => c <- plain_load8 s ;; plain_store8 d c ;; memcpy_loop n' (d + 1) (s + 1)
  end.

Definition memcpy (dst src n : Z) : M Z :=
  memcpy_loop (Z.to_nat n) dst src ;; ret dst.

(** ** main.c *)

(** [smp_memcpy]: [while (n-- > 0) { writeb(readb(s), d); s++, d++; }].
    Both are macros of io.h: [writeb(v, a)] expands to
    [({ __io_bw(); __raw_writeb((v), (a)); __io_aw(); })], so its argument
    [readb(s)] (itself [__io_br(); v = __raw_readb(s); __io_ar(); v]) is
    evaluated after the [__io_bw()] fence: per byte [fence w,o], [lb],
    [fence i,r], [sb]. *)
Fixpoint smp_memcpy_loop (n : nat) (d s : Z) : M unit :=
  match n with
  | O => ret tt
  | S n' =>
      io_bw ;; v <- readb s ;; raw_writeb v d ;; io_aw ;;
      smp_memcpy_loop n' (d + 1) (s + 1)
  end.

Definition smp_memcpy (dst src n : Z) : M Z :=
  smp_memcpy_loop (Z.to_nat n) dst src ;; ret dst.

(** Console output (uart.c, outside the signalling core): [puts],
    [uart_putc] and [uart_put_hex] each appear as one event. *)
Definition puts (s : string) : M unit := emit (EvPuts s).
Definition uart_putc (c : Z) : M unit := emit (EvPutc (Z.land c 255)).
Definition uart_put_hex (x : Z) : M unit := emit (EvPutHex x).

(** [uart_puts]: [while ( *s != '\0') uart_putc( *s++);], bounded by fuel. *)
Fixpoint uart_puts_loop (fuel : nat) (p : Z) : M unit :=
  match fuel with
  | O => stuck
  | S f =>
      c <- plain_load8 p ;;
      if Z.eqb c 0 then ret tt else uart_putc c ;; uart_puts_loop f (p + 1)
  end.

(** [read_csr(mip)]: the hardware mirrors bit 0 of the hart's msip
    register into mip.MSIP; the other interrupt sources of mip are masked by
    every use below and are read as zero. *)
Definition read_mip (h : Z) : M Z :=
  fun s =>
    let v := if Z.testbit (msip_word (memory s) h) 0 then MIP_MSIP else 0 in
    Some (v, s, [EvCsrRead CSR_mip v]).

Definition wfi : M unit := emit EvWfi.

Definition set_csr_mie (v : Z) : M unit := emit (EvCsrSet CSR_mie v).

(** [wait_ipi]: [while (!(read_csr(mip) & MIP_MSIP)) wfi();
    clint_clear_soft(hartid); return 0;].  The loop is bounded by fuel. *)
Fixpoint wait_ipi_loop (fuel : nat) (hartid : Z) : M unit :=
  match fuel with
  | O => stuck
  | S f =>
      v <- read_mip hartid ;;
      if Z.eqb (Z.land v MIP_MSIP) 0 then wfi ;; wait_ipi_loop f hartid
      else ret tt
  end.

Definition wait_ipi (fuel : nat) (hartid : Z) : M Z :=
  wait_ipi_loop fuel hartid ;; clint_clear_soft hartid ;; ret 0.

(** The send of [test_ipi] (main.c lines 90-95), for the message [m]
    returned by readline and the chosen target [to_hartid]:
    [memcpy(SMP_ADDR, m, strlen(m) + 1); puts(...); uart_put_hex(to_hartid);
    clint_send_soft(to_hartid);]. *)
Definition test_ipi_send (fuel : nat) (to_hartid m : Z) : M unit :=
  len <- strlen fuel m ;;
  memcpy SMP_ADDR m (len + 1) ;;
  puts "Send software interrupt. Hartid=" ;;
  uart_put_hex to_hartid ;;
  clint_send_soft to_hartid.

(** ** The boot barrier (smp.h) and the secondary loop of other_main

    Each hart runs the code below one step at a time; [pc] gives its
    position.  [Bcast] and [Sweep] carry register [reg1] of the macros. *)

Inductive pc :=
| Pause          (* smp_pause: csrw mie; bne mhartid, ZERO_HART, 42f *)
| Bcast (a : Z)  (* smp_resume 41: sw 1, 0(reg1); addi reg1, 4; blt *)
| WaitOwn        (* smp_resume 42: wfi; csrr mip; andi MIP_MSIP; beqz 42b *)
| ClearOwn       (* sw zero, 0(CLINT_CTRL_ADDR + (mhartid << 2)) *)
| Sweep (a : Z)  (* smp_resume 41: lw 0(reg1); bnez 41b; addi reg1, 4; blt *)
| Entry          (* falls through past smp_resume *)
| OInit          (* other_main: clint_init; clint_clear_soft; set_csr mie *)
| OWait          (* wait_ipi: one test of the loop condition *)
| OClear         (* wait_ipi: clint_clear_soft(hartid) *)
| OPuts          (* the two puts of other_main *)
| OPrint (p : Z) (* uart_puts(SMP_ADDR): one character *)
| OSend.         (* clint_send_soft(ZERO_HART) *)

(** Modelled from the spec: the start-up assembly placing the macros is not
    in the sources.  As the spec describes it, every hart starts in
    smp_pause, the primary reaches smp_resume after its device set-up, the
    secondaries branch from smp_pause to label 42 of smp_resume, and past
    the barrier a secondary enters other_main while the primary enters its
    own entry code, which this model does not step ([Entry] of hart
    [ZERO_HART] has no step). *)
Definition hstep (h : Z) (p : pc) : M pc :=
  match p with
  | Pause =>
      emit (EvCsrWrite CSR_mie MIP_MSIP) ;;
      if Z.eqb ZERO_HART h then ret (Bcast CLINT_CTRL_ADDR) else ret WaitOwn
  | Bcast a =>
      raw_writew 1 a ;;
      if Z.ltb (a + 4) CLINT_END_HART_IPI then ret (Bcast (a + 4)) else ret WaitOwn
  | WaitOwn =>
      wfi ;;
      v <- read_mip h ;;
      if Z.eqb (Z.land v MIP_MSIP) 0 then ret WaitOwn else ret ClearOwn
  | ClearOwn =>
      raw_writew 0 (CLINT_CTRL_ADDR + Z.shiftl h 2) ;;
      ret (Sweep CLINT_CTRL_ADDR)
  | Sweep a =>
      v <- raw_readw a ;;
      if negb (Z.eqb v 0) then ret (Sweep a)
      else if Z.ltb (a + 4) CLINT_END_HART_IPI then ret (Sweep (a + 4))
      else ret Entry
  | Entry => if Z.eqb ZERO_HART h then stuck else ret OInit
  | OInit =>
      clint_init CLINT_CTRL_ADDR ;;
      clint_clear_soft h ;;
      set_csr_mie MIP_MSIP ;;
      ret OWait
  | OWait =>
      v <- read_mip h ;;
      if Z.eqb (Z.land v MIP_MSIP) 0 then wfi ;; ret OWait else ret OClear
  | OClear => clint_clear_soft h ;; ret OPuts
  | OPuts =>
      puts "Software interrupt from Hart 0" ;;
      puts "Message from Hart 0: " ;;
      ret (OPrint SMP_ADDR)
  | OPrint q =>
      c <- plain_load8 q ;;
      if Z.eqb c 0 then ret OSend else uart_putc c ;; ret (OPrint (q + 1))
  | OSend => clint_send_soft ZERO_HART ;; ret OWait
  end.

(** [n] steps of one hart, with no other hart running. *)
Fixpoint hrun (h : Z) (n : nat) (p : pc) : M pc :=
  match n with
  | O => ret p
  | S n' => p' <- hstep h p ;; hrun h n' p'
  end.

(** The primary's successive steps, each taken on the machine as the hart
    finds it ([ss]): other harts may have changed it in between. *)
Fixpoint hsteps_at (h : Z) (p : pc) (ss : list machine) : option (pc * list event) :=
  match ss with
  | [] => Some (p, [])
  | s :: rest =>
      match hstep h p s with
      | Some (p', _, e) =>
          match hsteps_at h p' rest with
          | Some (p'', e') => Some (p'', e ++ e')
          | None => None
          end
      | None => None
      end
  end.

(** The pure effect of the byte copy loops on memory, and their trace. *)
Fixpoint copy_mem (n : nat) (d s : Z) (m : mem) : mem :=
  match n with
  | O => m
  | S n' => copy_mem n' (d + 1) (s + 1) (store8 m d (load8 m s))
  end.

Fixpoint copy_trace (n : nat) (d s : Z) (m : mem) : list event :=
  match n with
  | O => []
  | S n' =>
      EvLoad 1 s (load8 m s) :: EvStore 1 d (Z.land (load8 m s) 255)
      :: copy_trace n' (d + 1) (s + 1) (store8 m d (load8 m s))
  end.

(** All harts together: one hart at a time takes a step. *)
Record gstate := mkG { gmach : machine; gpc : Z -> pc }.

Definition upd_pc (f : Z -> pc) (i : Z) (p : pc) : Z -> pc :=
  fun j => if Z.eqb j i then p else f j.

Inductive gstep : gstate -> gstate -> Prop :=
| GStep (g : gstate) (i : Z) (p' : pc) (s' : machine) (evs : list event) :
    0 <= i < MAX_HARTS ->
    hstep i (gpc g i) (gmach g) = Some (p', s', evs) ->
    gstep g (mkG s' (upd_pc (gpc g) i p')).

Inductive reachable (g : gstate) : gstate -> Prop :=
| reach_refl : reachable g g
| reach_step (g1 g2 : gstate) : reachable g g1 -> gstep g1 g2 -> reachable g g2.

Definition boot (s0 : machine) : gstate := mkG s0 (fun _ => Pause).

(** A schedule: the list of harts that step, in order. *)
Fixpoint run (sched : list Z) (g : gstate) : option gstate :=
  match sched with
  | [] => Some g
  | i :: rest =>
      if Z.leb 0 i && Z.ltb i MAX_HARTS then
        match hstep i (gpc g i) (gmach g) with
        | Some (p', s', _) => run rest (mkG s' (upd_pc (gpc g) i p'))
        | None => None
        end
      else None
  end.

(** ** Observations on memory and traces *)

(** [c_string mm p msg]: the bytes [msg], none of them NUL, followed by a
    NUL, are stored at [p]. *)
Fixpoint c_string (mm : mem) (p : Z) (msg : list Z) : Prop :=
  match msg with
  | [] => load8 mm p = 0
  | c :: rest => load8 mm p = c /\ c <> 0 /\ c_string mm (p + 1) rest
  end.

(** The characters a trace sends to the console by [uart_putc]. *)
Fixpoint printed (evs : list event) : list Z :=
  match evs with
  | [] => []
  | EvPutc c :: rest => c :: printed rest
  | _ :: rest => printed rest
  end.

(** The fences of a trace, in order. *)
Definition is_fence (e : event) : bool :=
  match e with
  | EvFence _ _ => true
  | _ => false
  end.

Definition fences (evs : list event) : list event := filter is_fence evs.

(** The last event of a step is the reading of mip with MSIP set: the
    wait loop has seen its own bit. *)
Definition observed_set (evs : list event) : bool :=
  match rev evs with
  | EvCsrRead CSR_mip v :: _ => negb (Z.eqb (Z.land v MIP_MSIP) 0)
  | _ => false
  end.

(** ** The barrier invariant *)

(** Where the primary [p0] stands with respect to hart [h]: it has not yet
    raised [h]'s bit, or its sweep has passed [h]. *)
Definition prim_before (p0 : pc) (h : Z) : Prop :=
  p0 = Pause \/ exists a, p0 = Bcast a /\ a <= msip_addr h.

Definition prim_swept (p0 : pc) (h : Z) : Prop :=
  (exists a, p0 = Sweep a /\ msip_addr h < a) \/ p0 = Entry.

Definition at_msip (a : Z) : Prop :=
  exists k, 0 <= k < MAX_HARTS /\ a = msip_addr k.

Definition prim_ok (p0 : pc) : Prop :=
  p0 = Pause \/ (exists a, p0 = Bcast a /\ at_msip a) \/ p0 = WaitOwn \/
  p0 = ClearOwn \/ (exists a, p0 = Sweep a /\ at_msip a) \/ p0 = Entry.

(** A secondary waiting for its wake, or past its acknowledgment. *)
Definition parked (p : pc) : Prop := p = Pause \/ p = WaitOwn.

Definition acked (p : pc) : Prop :=
  (exists a, p = Sweep a) \/ p = Entry \/ p = OInit \/ p = OWait.

Definition sec_inv (p0 p : pc) (wv h : Z) : Prop :=
  (prim_before p0 h -> parked p /\ wv = 0) /\
  (~ prim_before p0 h -> ((parked p \/ p = ClearOwn) /\ wv = 1) \/ (acked p /\ wv = 0)) /\
  (prim_swept p0 h -> acked p /\ wv = 0).

Definition barrier_inv (g : gstate) : Prop :=
  prim_ok (gpc g ZERO_HART) /\
  forall h, 1 <= h < MAX_HARTS ->
    sec_inv (gpc g ZERO_HART) (gpc g h) (msip_word (memory (gmach g)) h) h.

(** ** Sample inputs *)

(** A machine whose memory is all zero and whose controller base is set. *)
Definition s_zero : machine := mkMachine (fun _ => 0) CLINT_CTRL_ADDR.

(** Two source bytes 1, 2 at addresses 10, 11. *)
Definition s_two_bytes : machine :=
  mkMachine (fun a => if Z.eqb a 10 then 1 else if Z.eqb a 11 then 2 else 0)
    CLINT_CTRL_ADDR.

(** The message "hello" (bytes 104 101 108 108 111, then NUL) at 100. *)
Definition hello : list Z := [104; 101; 108; 108; 111].

Definition s_hello : machine :=
  mkMachine (fun a => nth (Z.to_nat (a - 100)) (hello ++ [0]) 0 * (if Z.leb 100 a then 1 else 0))
    CLINT_CTRL_ADDR.

(** The one-byte message "a" at 100. *)
Definition s_a : machine :=
  mkMachine (fun a => if Z.eqb a 100 then 97 else 0) CLINT_CTRL_ADDR.

(** A line of SMP_SIZE characters 'A' and its newline, as the RXDATA
    register gives them to the reads of uart_getc. *)
Definition long_line : list Z := repeat 65 (Z.to_nat SMP_SIZE) ++ [10].

(** A schedule taking every hart through the barrier: the primary
    broadcasts and clears its own bit, each secondary wakes and clears its
    bit, then the primary sweeps. *)
Definition barrier_sched : list Z :=
  [0; 0; 0; 0; 0; 0; 0; 0; 1; 1; 1; 2; 2; 2; 3; 3; 3; 4; 4; 4; 0; 0; 0; 0; 0].

Definition g_released : gstate :=
  match run barrier_sched (boot s_zero) with Some g => g | None => boot s_zero end.

(** A machine whose hart 1 has its msip bit raised. *)
Definition s_w1 : machine :=
  mkMachine (store32 (fun _ => 0) (msip_addr 1) 1) CLINT_CTRL_ADDR.

(** * The rest of the library and driver code *)

(** ** libs/string.c: memset, memmove, memcmp *)

(** [memset]: [char *p = s; while (n-- > 0) *p++ = c; return s;]; the
    [char] [c] is stored as its low byte. *)
Fixpoint memset_loop (n : nat) (p c : Z) : M unit :=
  match n with
  | O => ret tt
  | S n' => plain_store8 p c ;; memset_loop n' (p + 1) c
  end.

Definition memset (s c n : Z) : M Z := memset_loop (Z.to_nat n) s c ;; ret s.

(** [memmove]: if [s < d && s + n > d] it moves the pointers to the ends
    and copies backwards ([while (n-- > 0) *--d = *--s;]); otherwise it
    copies forwards with the same loop as memcpy. *)
Fixpoint memmove_back (n : nat) (d s : Z) : M unit :=
  match n with
  | O => ret tt
  | S n' =>
      c <- plain_load8 (s - 1) ;; plain_store8 (d - 1) c ;; memmove_back n' (d - 1) (s - 1)
  end.

Definition memmove (dst src n : Z) : M Z :=
  (if Z.ltb src dst && Z.ltb dst (src + n)
   then memmove_back (Z.to_nat n) (dst + n) (src + n)
   else memcpy_loop (Z.to_nat n) dst src) ;;
  ret dst.

(** [memcmp]: [while (n-- > 0) { if ( *s1 != *s2) return (int)((unsigned
    char) *s1 - (unsigned char) *s2); s1++, s2++; } return 0;]. *)
Fixpoint memcmp_loop (n : nat) (p q : Z) : M Z :=
  match n with
  | O => ret 0
  | S n' =>
      a <- plain_load8 p ;;
      b <- plain_load8 q ;;
      if negb (Z.eqb a b) then ret (a - b) else memcmp_loop n' (p + 1) (q + 1)
  end.

Definition memcmp (v1 v2 n : Z) : M Z := memcmp_loop (Z.to_nat n) v1 v2.

(** ** devices/clint/clint.c: the timer registers *)

(** 64-bit little-endian accesses (sd / ld) and readd / writed of io.h. *)
Definition store64 (m : mem) (a v : Z) : mem :=
  store32 (store32 m a v) (a + 4) (Z.shiftr v 32).

Definition load64 (m : mem) (a : Z) : Z :=
  load32 m a + Z.shiftl (load32 m (a + 4)) 32.

Definition raw_readd (a : Z) : M Z :=
  fun s => let v := load64 (memory s) a in Some (v, s, [EvLoad 8 a v]).

Definition raw_writed (v a : Z) : M unit :=
  fun s => Some (tt, set_memory s (store64 (memory s) a v), [EvStore 8 a v]).

Definition readd (a : Z) : M Z := io_br ;; v <- raw_readd a ;; io_ar ;; ret v.
Definition writed (v a : Z) : M unit := io_bw ;; raw_writed v a ;; io_aw.

Definition clint_get_mtime : M Z :=
  b <- get_clint_base ;; readd (b + CLINT_MTIME_OFFSET).

Definition clint_set_timecmp (hartid time : Z) : M unit :=
  b <- get_clint_base ;;
  writed time (b + hartid * CLINT_MTIMECMP_SIZE + CLINT_MTIMECMP_OFFSET).

(** ** devices/uart/uart.c *)

Definition UART_TXDATA_FULL : Z := 2147483648.    (* 0x80000000 *)
Definition UART_RXDATA_EMPTY : Z := 2147483648.   (* 0x80000000 *)
Definition UART_RXDATA_MASK : Z := 255.

(** [uart_min_clk_divisor]: the [uint64_t] quotient
    [(in_freq + max_target_hz - 1) / max_target_hz], and [quotient - 1]
    returned as an [unsigned int] unless the quotient is 0. *)
Definition uart_min_clk_divisor (in_freq max_target_hz : Z) : Z :=
  let quotient := ((in_freq + max_target_hz - 1) mod 2 ^ 64) / max_target_hz in
  if Z.eqb quotient 0 then 0 else (quotient - 1) mod 2 ^ 32.

Definition UART_REG_TXDATA : Z := 0.
Definition UART_REG_RXDATA : Z := 1.
Definition UART_REG_TXCTRL : Z := 2.
Definition UART_REG_RXCTRL : Z := 3.
Definition UART_REG_IE : Z := 4.
Definition UART_REG_DIV : Z := 6.
Definition UART_TXCTRL_TXEN : Z := 1.
Definition UART_RXCTRL_RXEN : Z := 1.

(** The addresses of uart.c's statics: the pointer [uart_base] (8 bytes)
    and the [uint32_t]s [uart_in_freq] and [uart_baudrate] (4 bytes each). *)
Record uart_statics := mkUartStatics {
  uart_base : Z;
  uart_in_freq : Z;
  uart_baudrate : Z
}.

(** Plain C accesses to a 64-bit or a 32-bit variable: the loads and stores
    of ld, sd and sw, with no fence around them. *)
Definition plain_load64 (a : Z) : M Z := raw_readd a.
Definition plain_store64 (a v : Z) : M unit := raw_writed v a.
Definition plain_store32 (a v : Z) : M unit := raw_writew v a.

(** [set_reg(i, v)]: [writew(v, uart_base + (i << 2))], with the pointer
    read from the static [uart_base]. *)
Definition uart_set_reg (sv : uart_statics) (i v : Z) : M unit :=
  b <- plain_load64 (uart_base sv) ;; writew v (b + Z.shiftl i 2).

(** [uart_init(base, in_freq, baudrate)]: it saves its arguments in the
    statics, then writes the divisor register only when [in_freq] is not 0,
    and IE, TXCTRL and RXCTRL. *)
Definition uart_init (sv : uart_statics) (base in_freq baudrate : Z) : M unit :=
  plain_store64 (uart_base sv) base ;;
  plain_store32 (uart_in_freq sv) in_freq ;;
  plain_store32 (uart_baudrate sv) baudrate ;;
  (if negb (Z.eqb in_freq 0)
   then uart_set_reg sv UART_REG_DIV (uart_min_clk_divisor in_freq baudrate)
   else ret tt) ;;
  uart_set_reg sv UART_REG_IE 0 ;;
  uart_set_reg sv UART_REG_TXCTRL UART_TXCTRL_TXEN ;;
  uart_set_reg sv UART_REG_RXCTRL UART_RXCTRL_RXEN.

(** The [n] bytes at [a] and the [k] bytes at [b] do not overlap. *)
Definition apart (a n b k : Z) : Prop := a + n <= b \/ b + k <= a.

(** [uart_getc] on the value [reg] that its [get_reg(UART_REG_RXDATA)]
    read: the received byte, or -1 when the empty flag is set. *)
Definition uart_getc_of (reg : Z) : Z :=
  if Z.eqb (Z.land reg UART_RXDATA_EMPTY) 0 then Z.land reg UART_RXDATA_MASK else -1.

(** [uart_put_hex] character by character: [uart_puts("0x")], then for
    [idx = 7, ..., 0] the digit [c = (hex >> (idx * 4)) & 0xf] printed as
    ['0' + c] or ['a' + c - 0xa]; [hex] is a [uint32_t]. *)
Fixpoint put_hex_loop (hex : Z) (idx : nat) : M unit :=
  match idx with
  | O => ret tt
  | S i =>
      let c := Z.land (Z.shiftr hex (Z.of_nat i * 4)) 15 in
      uart_putc (if Z.ltb c 10 then 48 + c else 97 + c - 10) ;; put_hex_loop hex i
  end.

Definition uart_put_hex_chars (hex : Z) : M unit :=
  uart_putc 48 ;; uart_putc 120 ;; put_hex_loop (Z.land hex 4294967295) 8.

(** Reading back a string of lowercase hexadecimal digits, most
    significant first (the inverse used to state what uart_put_hex prints). *)
Definition hex_digit_value (d : Z) : Z := if Z.leb 97 d then d - 87 else d - 48.

Fixpoint hex_value (ds : list Z) : Z :=
  match ds with
  | [] => 0
  | d :: r => hex_digit_value d * 16 ^ Z.of_nat (List.length r) + hex_value r
  end.

Definition is_hex_digit (d : Z) : bool :=
  (Z.leb 48 d && Z.leb d 57) || (Z.leb 97 d && Z.leb d 102).

(** ** libs/console.c *)

(** [getchar]: [while ((c = uart_getc()) == -1);], over the successive
    values [rx] that the RXDATA register gives to its reads.  [None]: none
    of them holds a byte, the loop does not end.  It also returns the values
    not yet read. *)
Fixpoint getchar (rx : list Z) : option (Z * list Z) :=
  match rx with
  | [] => None
  | r :: rest =>
      let c := uart_getc_of r in
      if Z.eqb c (-1) then getchar rest else Some (c, rest)
  end.

(** [readline]'s loop, [i] being the fill index of the static buffer
    [buf] (at address [bufp]).  It returns the pointer [readline] gives back
    ([None] for NULL) with the RXDATA values not yet read; echoed
    characters go to [uart_putc]. *)
Fixpoint readline_loop (fuel : nat) (bufp : Z) (rx : list Z) (i : Z)
  : M (option Z * list Z) :=
  match fuel with
  | O => stuck
  | S f =>
      match getchar rx with
      | None => stuck
      | Some (c, rx') =>
          if Z.ltb c 0 then ret (None, rx')
          else if Z.leb 32 c && Z.ltb i (BUFSIZE - 1) then
            uart_putc c ;; plain_store8 (bufp + i) c ;; readline_loop f bufp rx' (i + 1)
          else if Z.eqb c 8 && Z.ltb 0 i then
            uart_putc c ;; readline_loop f bufp rx' (i - 1)
          else if Z.eqb c 10 || Z.eqb c 13 then
            uart_putc c ;; plain_store8 (bufp + i) 0 ;; ret (Some bufp, rx')
          else readline_loop f bufp rx' i
      end
  end.

(** [readline(prompt)]: [prompt] is [None] for NULL or the address of the
    prompt string. *)
Definition readline (fuel : nat) (bufp : Z) (prompt : option Z) (rx : list Z)
  : M (option Z * list Z) :=
  (match prompt with Some p => uart_puts_loop fuel p | None => ret tt end) ;;
  readline_loop fuel bufp rx 0.

(** [__intr_save] and [__intr_restore] on the value of mstatus: the flag
    returned and the new mstatus ([clear_csr] is csrrc, [set_csr] csrrs). *)
Definition MSTATUS_MIE : Z := 8.

Definition intr_save (mstatus : Z) : Z * Z :=
  if negb (Z.eqb (Z.land mstatus MSTATUS_MIE) 0)
  then (1, Z.land mstatus (Z.lnot MSTATUS_MIE)) else (0, mstatus).

Definition intr_restore (flag mstatus : Z) : Z :=
  if negb (Z.eqb flag 0) then Z.lor mstatus MSTATUS_MIE else mstatus.

(** ** main.c: the choice of the target hart in test_ipi *)

(** [to_hartid = readline(NULL)[0] - '0'], a [size_t]. *)
Definition to_hartid_of (c : Z) : Z := (c - 48) mod 2 ^ 64.

(** The inner loop of test_ipi (main.c lines 78-86): prompt, read a line,
    keep its first character's hart id if it is in [1, MAX_HARTS - 1],
    otherwise complain and ask again.  Indexing a NULL line has no meaning
    and is a computation that does not finish. *)
Fixpoint select_target (fuel : nat) (bufp : Z) (rx : list Z) : M (Z * list Z) :=
  match fuel with
  | O => stuck
  | S f =>
      puts "Input hartid to wake up target hart: " ;;
      r <- readline fuel bufp None rx ;;
      match r with
      | (None, _) => stuck
      | (Some p, rx') =>
          c <- plain_load8 p ;;
          let to := to_hartid_of c in
          if Z.leb (ZERO_HART + 1) to && Z.leb to (MAX_HARTS - 1) then ret (to, rx')
          else puts "Hartid out of range!" ;; select_target f bufp rx'
      end
  end.

(** The message part of test_ipi's loop (main.c lines 88-95), the target
    [to_hartid] being chosen: [puts("Input message: "); char* m =
    readline(NULL);] and the send of [m].  [strlen(NULL)] has no meaning
    and is a computation that does not finish.  It returns the RXDATA values
    not yet read. *)
Definition test_ipi_message (fuel : nat) (bufp to_hartid : Z) (rx : list Z)
  : M (list Z) :=
  puts "Input message: " ;;
  r <- readline fuel bufp None rx ;;
  match r with
  | (None, _) => stuck
  | (Some m, rx') => test_ipi_send fuel to_hartid m ;; ret rx'
  end.

(** * Properties *)

Ltac unfold_M :=
  unfold readb, writeb, readw, writew, plain_load8, plain_store8, io_br,
    io_ar, io_bw, io_aw, wfi, set_csr_mie, puts, uart_putc, uart_put_hex;
  unfold raw_readb, raw_writeb, raw_readw, raw_writew, get_clint_base,
    clint_init, set_memory, bind, ret, emit, stuck.

(** ** Memory *)

Lemma upd_same (m : mem) (a v : Z) : upd m a v a = v.
Proof. unfold upd. now rewrite Z.eqb_refl. Qed.

Lemma upd_other (m : mem) (a b v : Z) : b <> a -> upd m a v b = m b.
Proof. intro H. unfold upd. now rewrite (proj2 (Z.eqb_neq b a) H). Qed.

Lemma load8_store8_same (m : mem) (a v : Z) :
  load8 (store8 m a v) a = Z.land v 255.
Proof.
  unfold load8, store8. rewrite upd_same, <- Z.land_assoc, Z.land_diag.
  reflexivity.
Qed.

Lemma load8_store8_other (m : mem) (a b v : Z) :
  b <> a -> load8 (store8 m a v) b = load8 m b.
Proof. intro H. unfold load8, store8. now rewrite upd_other. Qed.

Lemma store32_other (m : mem) (a b v : Z) :
  (b < a \/ a + 4 <= b) -> store32 m a v b = m b.
Proof.
  intro H. unfold store32, store8.
  repeat rewrite upd_other by lia. reflexivity.
Qed.

Lemma load32_store32_other (m : mem) (a b v : Z) :
  (a + 4 <= b \/ b + 4 <= a) -> load32 (store32 m a v) b = load32 m b.
Proof.
  intro H. unfold load32, load8.
  repeat rewrite store32_other by lia. reflexivity.
Qed.

Lemma load32_store32_bytes (m : mem) (a v : Z) :
  load32 (store32 m a v) a =
  Z.land v 255 + Z.shiftl (Z.land (Z.shiftr v 8) 255) 8
  + Z.shiftl (Z.land (Z.shiftr v 16) 255) 16
  + Z.shiftl (Z.land (Z.shiftr v 24) 255) 24.
Proof.
  unfold load32, store32.
  rewrite load8_store8_other, load8_store8_other, load8_store8_other,
    load8_store8_same by lia.
  rewrite load8_store8_other, load8_store8_other, load8_store8_same by lia.
  rewrite load8_store8_other, load8_store8_same by lia.
  rewrite load8_store8_same.
  reflexivity.
Qed.

Lemma load32_store32_0 (m : mem) (a : Z) : load32 (store32 m a 0) a = 0.
Proof. rewrite load32_store32_bytes. reflexivity. Qed.

Lemma load32_store32_1 (m : mem) (a : Z) : load32 (store32 m a 1) a = 1.
Proof. rewrite load32_store32_bytes. reflexivity. Qed.

(** Storing twice the same word is storing it once. *)
Lemma store32_store32 (m : mem) (a v x : Z) :
  store32 (store32 m a v) a v x = store32 m a v x.
Proof.
  unfold store32, store8, upd.
  destruct (Z.eqb x (a + 3)), (Z.eqb x (a + 2)), (Z.eqb x (a + 1)),
    (Z.eqb x a); reflexivity.
Qed.

Lemma msip_addr_apart (g h : Z) :
  g <> h -> msip_addr g + 4 <= msip_addr h \/ msip_addr h + 4 <= msip_addr g.
Proof. unfold msip_addr, CLINT_SOFT, CLINT_MSIP_SIZE, CLINT_MSIP_OFFSET. lia. Qed.

Lemma msip_word_store_other (m : mem) (g h v : Z) :
  g <> h -> msip_word (store32 m (msip_addr g) v) h = msip_word m h.
Proof.
  intro H. unfold msip_word. apply load32_store32_other.
  pose proof (msip_addr_apart g h H). lia.
Qed.

(** ** clint.c, step by step *)

Lemma clint_send_soft_eq (s : machine) (h : Z) :
  clint_send_soft h s =
  Some (tt, set_memory s (store32 (memory s) (CLINT_SOFT (clint_base s) h) 1),
        [EvFence [AccW] [AccO]; EvStore 4 (CLINT_SOFT (clint_base s) h) 1]).
Proof. reflexivity. Qed.

Lemma clint_clear_soft_eq (s : machine) (h : Z) :
  clint_clear_soft h s =
  Some (tt, set_memory s (store32 (memory s) (CLINT_SOFT (clint_base s) h) 0),
        [EvFence [AccW] [AccO]; EvStore 4 (CLINT_SOFT (clint_base s) h) 0]).
Proof. reflexivity. Qed.

Lemma is_pending_eq (s : machine) (h : Z) :
  result (is_pending h) s =
  Some (negb (Z.eqb (load32 (memory s) (CLINT_SOFT (clint_base s) h)) 0)).
Proof. reflexivity. Qed.

Lemma CLINT_SOFT_apart (b g h : Z) :
  g <> h -> CLINT_SOFT b g + 4 <= CLINT_SOFT b h \/ CLINT_SOFT b h + 4 <= CLINT_SOFT b g.
Proof. unfold CLINT_SOFT, CLINT_MSIP_SIZE, CLINT_MSIP_OFFSET. lia. Qed.

(** ** The byte copies *)

Lemma memcpy_loop_eq (n : nat) : forall d s st,
  memcpy_loop n d s st =
  Some (tt, mkMachine (copy_mem n d s (memory st)) (clint_base st),
        copy_trace n d s (memory st)).
Proof.
  induction n as [|n IH]; intros d s st.
  - destruct st; reflexivity.
  - simpl memcpy_loop. unfold_M. rewrite IH. reflexivity.
Qed.

Lemma memcpy_eq (dst src n : Z) (st : machine) :
  memcpy dst src n st =
  Some (dst, mkMachine (copy_mem (Z.to_nat n) dst src (memory st)) (clint_base st),
        copy_trace (Z.to_nat n) dst src (memory st) ++ []).
Proof. unfold memcpy, bind, ret. rewrite memcpy_loop_eq. reflexivity. Qed.

Lemma smp_memcpy_loop_eq (n : nat) : forall d s st, exists e,
  smp_memcpy_loop n d s st =
  Some (tt, mkMachine (copy_mem n d s (memory st)) (clint_base st), e).
Proof.
  induction n as [|n IH]; intros d s st.
  - destruct st; eexists; reflexivity.
  - simpl smp_memcpy_loop. unfold_M. destruct (IH (d + 1) (s + 1)
      (mkMachine (store8 (memory st) d (load8 (memory st) s)) (clint_base st)))
      as [e He]. simpl in He.
    simpl. rewrite He. eexists. reflexivity.
Qed.

Lemma load8_land (m : mem) (a : Z) : Z.land (load8 m a) 255 = load8 m a.
Proof. unfold load8. now rewrite <- Z.land_assoc, Z.land_diag. Qed.

(** The forward copy moves the source bytes unless the destination starts
    strictly inside the source. *)
Lemma copy_mem_spec (n : nat) : forall d s m,
  ~ (s < d < s + Z.of_nat n) ->
  forall a, copy_mem n d s m a =
    if (d <=? a) && (a <? d + Z.of_nat n) then load8 m (s + (a - d)) else m a.
Proof.
  induction n as [|n IH]; intros d s m Hov a.
  - simpl. rewrite Z.add_0_r.
    destruct (Z.leb_spec d a), (Z.ltb_spec a d); simpl; try lia; reflexivity.
  - rewrite Nat2Z.inj_succ in *. simpl copy_mem. rewrite IH by lia.
    destruct (Z.leb_spec (d + 1) a), (Z.ltb_spec a (d + 1 + Z.of_nat n));
      simpl andb; cbv iota.
    + destruct (Z.leb_spec d a); [|lia].
      destruct (Z.ltb_spec a (d + Z.succ (Z.of_nat n))); [|lia]. simpl andb.
      rewrite load8_store8_other by lia. f_equal. lia.
    + destruct (Z.leb_spec d a); [|lia].
      destruct (Z.ltb_spec a (d + Z.succ (Z.of_nat n))); [lia|]. simpl andb.
      unfold store8. rewrite upd_other by lia. reflexivity.
    + destruct (Z.eqb_spec a d) as [->|Hne].
      * rewrite Z.leb_refl.
        destruct (Z.ltb_spec d (d + Z.succ (Z.of_nat n))); [|lia]. simpl andb.
        unfold store8. rewrite upd_same, load8_land. f_equal. lia.
      * destruct (Z.leb_spec d a); [lia|]. simpl andb.
        unfold store8. rewrite upd_other by lia. reflexivity.
    + lia.
Qed.

Lemma final_send_soft (s : machine) (h : Z) :
  final (clint_send_soft h) s =
  Some (set_memory s (store32 (memory s) (CLINT_SOFT (clint_base s) h) 1)).
Proof. reflexivity. Qed.

Lemma final_clear_soft (s : machine) (h : Z) :
  final (clint_clear_soft h) s =
  Some (set_memory s (store32 (memory s) (CLINT_SOFT (clint_base s) h) 0)).
Proof. reflexivity. Qed.

Lemma pending_store_other (s : machine) (g h v : Z) :
  g <> h ->
  result (is_pending g)
    (set_memory s (store32 (memory s) (CLINT_SOFT (clint_base s) h) v))
  = result (is_pending g) s.
Proof.
  intro H. rewrite !is_pending_eq. simpl.
  rewrite load32_store32_other; [reflexivity|].
  pose proof (CLINT_SOFT_apart (clint_base s) h g). lia.
Qed.

(** ** C5: raise, clear and their idempotence *)

(** C5: after [raise(h)] (clint_send_soft) [is_pending(h)] is true, after
    [clear(h)] (clint_clear_soft) it is false; both always complete (they
    return void and signal no error), and repeating either one leaves the
    machine as the first call left it. *)
Theorem raise_clear_pending (s : machine) (h : Z) :
  (exists s1, final (clint_send_soft h) s = Some s1 /\
              result (is_pending h) s1 = Some true) /\
  (exists s1, final (clint_clear_soft h) s = Some s1 /\
              result (is_pending h) s1 = Some false) /\
  (exists s1 s2, final (clint_send_soft h) s = Some s1 /\
                 final (clint_send_soft h) s1 = Some s2 /\ same_machine s2 s1) /\
  (exists s1 s2, final (clint_clear_soft h) s = Some s1 /\
                 final (clint_clear_soft h) s1 = Some s2 /\ same_machine s2 s1).
Proof.
  repeat split.
  - eexists. split; [apply final_send_soft|].
    rewrite is_pending_eq. simpl. now rewrite load32_store32_1.
  - eexists. split; [apply final_clear_soft|].
    rewrite is_pending_eq. simpl. now rewrite load32_store32_0.
  - do 2 eexists. split; [apply final_send_soft|].
    split; [apply final_send_soft|].
    split; [reflexivity|]. intro a. simpl. apply store32_store32.
  - do 2 eexists. split; [apply final_clear_soft|].
    split; [apply final_clear_soft|].
    split; [reflexivity|]. intro a. simpl. apply store32_store32.
Qed.

(** ** C6: cross-hart isolation *)

(** C6: for distinct harts [g <> h], [raise(h)] and [clear(h)] leave
    [is_pending(g)] as it was; in particular raising only hart 2 from a
    state where no hart is pending leaves harts 1, 3 and 4 not pending and
    makes hart 2 pending. *)
Theorem cross_hart_isolation (s : machine) (g h : Z) (Hgh : g <> h) :
  (exists s1, final (clint_send_soft h) s = Some s1 /\
              result (is_pending g) s1 = result (is_pending g) s) /\
  (exists s1, final (clint_clear_soft h) s = Some s1 /\
              result (is_pending g) s1 = result (is_pending g) s) /\
  ((forall k, 0 <= k < MAX_HARTS -> result (is_pending k) s = Some false) ->
   exists s1, final (clint_send_soft 2) s = Some s1 /\
     result (is_pending 1) s1 = Some false /\
     result (is_pending 3) s1 = Some false /\
     result (is_pending 4) s1 = Some false /\
     result (is_pending 2) s1 = Some true).
Proof.
  split; [|split].
  - eexists. split; [apply final_send_soft|]. now apply pending_store_other.
  - eexists. split; [apply final_clear_soft|]. now apply pending_store_other.
  - intro Hclear. eexists. split; [apply final_send_soft|].
    rewrite !pending_store_other by lia.
    split; [apply Hclear; unfold MAX_HARTS; lia|].
    split; [apply Hclear; unfold MAX_HARTS; lia|].
    split; [apply Hclear; unfold MAX_HARTS; lia|].
    rewrite is_pending_eq. simpl. now rewrite load32_store32_1.
Qed.

Lemma cross_hart_isolation_witness :
  (1 <> 2) /\
  ((exists s1, final (clint_send_soft 2) (mkMachine (fun _ => 0) CLINT_CTRL_ADDR) = Some s1 /\
      result (is_pending 1) s1 = result (is_pending 1) (mkMachine (fun _ => 0) CLINT_CTRL_ADDR)) /\
   (exists s1, final (clint_clear_soft 2) (mkMachine (fun _ => 0) CLINT_CTRL_ADDR) = Some s1 /\
      result (is_pending 1) s1 = result (is_pending 1) (mkMachine (fun _ => 0) CLINT_CTRL_ADDR)) /\
   ((forall k, 0 <= k < MAX_HARTS ->
       result (is_pending k) (mkMachine (fun _ => 0) CLINT_CTRL_ADDR) = Some false) ->
    exists s1, final (clint_send_soft 2) (mkMachine (fun _ => 0) CLINT_CTRL_ADDR) = Some s1 /\
      result (is_pending 1) s1 = Some false /\
      result (is_pending 3) s1 = Some false /\
      result (is_pending 4) s1 = Some false /\
      result (is_pending 2) s1 = Some true)).
Proof.
  split; [lia|].
  apply (cross_hart_isolation (mkMachine (fun _ => 0) CLINT_CTRL_ADDR) 1 2).
  lia.
Defined.

(** ** C7: the broadcast of smp_resume *)

(** C7: from smp_pause, the primary's first six steps write mie and then
    raise (store 1 into the msip register of) harts 0, 1, 2, 3, 4, each
    exactly once and in increasing order, its own id 0 included, before it
    waits for its own bit; this holds whatever the other harts did to memory
    between these steps. *)
Theorem broadcast_raises_all_in_order (s1 s2 s3 s4 s5 s6 : machine) :
  hsteps_at ZERO_HART Pause [s1; s2; s3; s4; s5; s6] =
  Some (WaitOwn,
        EvCsrWrite CSR_mie MIP_MSIP
        :: map (fun h => EvStore 4 (msip_addr h) 1)
               (map Z.of_nat (seq 0 (Z.to_nat MAX_HARTS)))).
Proof. reflexivity. Qed.

(** ** C10: smp_memcpy and memcpy *)

(** C10 (as the code does it): for every [dst], [src] and [size_t] length
    [n], [smp_memcpy] and [memcpy] both return [dst] and leave the same
    machine; when the destination does not start strictly inside the
    source ([~ (src < dst < src + n)]), that machine has the [n] source
    bytes at [dst .. dst + n - 1] and every other byte unchanged. *)
Theorem smp_memcpy_same_as_memcpy (dst src n : Z) (st : machine) :
  result (memcpy dst src n) st = Some dst /\
  result (smp_memcpy dst src n) st = Some dst /\
  final (memcpy dst src n) st = final (smp_memcpy dst src n) st /\
  (0 <= n -> ~ (src < dst < src + n) ->
   forall st1, final (memcpy dst src n) st = Some st1 ->
   forall a, memory st1 a =
     if (dst <=? a) && (a <? dst + n) then load8 (memory st) (src + (a - dst))
     else memory st a).
Proof.
  destruct (smp_memcpy_loop_eq (Z.to_nat n) dst src st) as [e He].
  assert (Hm : memcpy dst src n st =
    Some (dst, mkMachine (copy_mem (Z.to_nat n) dst src (memory st)) (clint_base st),
          copy_trace (Z.to_nat n) dst src (memory st) ++ [])).
  { unfold memcpy, bind, ret. rewrite memcpy_loop_eq. reflexivity. }
  assert (Hs : smp_memcpy dst src n st =
    Some (dst, mkMachine (copy_mem (Z.to_nat n) dst src (memory st)) (clint_base st),
          e ++ [])).
  { unfold smp_memcpy, bind, ret. rewrite He. reflexivity. }
  unfold result, final. rewrite Hm, Hs.
  repeat split.
  intros Hn Hov st1 Heq a. injection Heq as <-. simpl.
  rewrite copy_mem_spec; rewrite Z2Nat.id by lia; [reflexivity | lia].
Qed.

Lemma smp_memcpy_same_as_memcpy_witness :
  (0 <= 2 /\ ~ (10 < 20 < 10 + 2)) /\
  (result (memcpy 20 10 2) s_two_bytes = Some 20 /\
   result (smp_memcpy 20 10 2) s_two_bytes = Some 20 /\
   final (memcpy 20 10 2) s_two_bytes = final (smp_memcpy 20 10 2) s_two_bytes /\
   (0 <= 2 -> ~ (10 < 20 < 10 + 2) ->
    forall st1, final (memcpy 20 10 2) s_two_bytes = Some st1 ->
    forall a, memory st1 a =
      if (20 <=? a) && (a <? 20 + 2) then load8 (memory s_two_bytes) (10 + (a - 20))
      else memory s_two_bytes a)).
Proof.
  split; [lia|]. apply (smp_memcpy_same_as_memcpy 20 10 2 s_two_bytes).
Defined.

(** C10, counterexample to "the n bytes of src copied to dst": copying the
    bytes 1, 2 at 10, 11 to 11 (overlapping forward copy) leaves 1, 1 at
    11, 12, not the source bytes 1, 2; smp_memcpy leaves the same. *)
Lemma memcpy_overlap_counterexample :
  match final (memcpy 11 10 2) s_two_bytes with
  | Some st1 =>
      memory st1 12 <> load8 (memory s_two_bytes) 11 /\
      final (smp_memcpy 11 10 2) s_two_bytes = Some st1
  | None => False
  end.
Proof. vm_compute. split; [discriminate | reflexivity]. Qed.

(** ** The mailbox: send of test_ipi and receive of other_main *)

Lemma bind_eq {A B} (c : M A) (f : A -> M B) (s s1 s2 : machine) (x : A) (y : B)
  (e1 e2 : list event) :
  c s = Some (x, s1, e1) -> f x s1 = Some (y, s2, e2) ->
  bind c f s = Some (y, s2, e1 ++ e2).
Proof. intros H1 H2. unfold bind. rewrite H1, H2. reflexivity. Qed.

Lemma bind_eq' {A B} (c : M A) (f : A -> M B) (s s1 s2 : machine) (x : A) (y : B)
  (e1 e2 e : list event) :
  c s = Some (x, s1, e1) -> f x s1 = Some (y, s2, e2) -> e = e1 ++ e2 ->
  bind c f s = Some (y, s2, e).
Proof. intros H1 H2 ->. eapply bind_eq; eassumption. Qed.

Lemma strlen_loop_c_string (msg : list Z) : forall fuel p cnt st,
  c_string (memory st) p msg -> (List.length msg < fuel)%nat ->
  exists e, strlen_loop fuel p cnt st = Some (cnt + Z.of_nat (List.length msg), st, e).
Proof.
  induction msg as [|c rest IH]; intros fuel p cnt st Hs Hf;
    (destruct fuel as [|fuel]; [simpl in Hf; lia|]).
  - simpl in Hs. simpl strlen_loop. unfold_M. cbn -[load8].
    rewrite Hs. simpl. rewrite Z.add_0_r. eexists. reflexivity.
  - simpl in Hs. destruct Hs as (Hc & Hnz & Hs).
    simpl strlen_loop. unfold_M. cbn -[load8 strlen_loop].
    rewrite Hc. rewrite (proj2 (Z.eqb_neq c 0) Hnz).
    destruct (IH fuel (p + 1) (cnt + 1) st Hs) as [e He]; [simpl in Hf; lia|].
    rewrite He. eexists. f_equal. f_equal. f_equal. simpl List.length. lia.
Qed.

Lemma c_string_shift (msg : list Z) : forall mm mm' p q,
  (forall i, 0 <= i <= Z.of_nat (List.length msg) -> load8 mm' (q + i) = load8 mm (p + i)) ->
  c_string mm p msg -> c_string mm' q msg.
Proof.
  induction msg as [|c rest IH]; intros mm mm' p q Heq Hs; simpl in *.
  - rewrite <- (Z.add_0_r q), Heq, Z.add_0_r by lia. exact Hs.
  - destruct Hs as (Hc & Hnz & Hs). split; [|split; [exact Hnz|]].
    + rewrite <- (Z.add_0_r q), Heq, Z.add_0_r by lia. exact Hc.
    + apply (IH mm mm' (p + 1) (q + 1)); [|exact Hs].
      intros i Hi. rewrite <- !Z.add_assoc. apply Heq. lia.
Qed.

Lemma load8_store32_other (mm : mem) (a x v : Z) :
  (x < a \/ a + 4 <= x) -> load8 (store32 mm a v) x = load8 mm x.
Proof. intro H. unfold load8. now rewrite store32_other. Qed.

Lemma c_string_store32_below (msg : list Z) (mm : mem) (a p v : Z) :
  a + 4 <= p -> c_string mm p msg -> c_string (store32 mm a v) p msg.
Proof.
  intros Ha. apply c_string_shift. intros i Hi.
  apply load8_store32_other. lia.
Qed.

(** After the copy the mailbox holds the message. *)
Lemma copy_c_string (msg : list Z) (mm : mem) (m d : Z) :
  (d <= m \/ m + Z.of_nat (List.length msg) < d) ->
  c_string mm m msg ->
  c_string (copy_mem (S (List.length msg)) d m mm) d msg.
Proof.
  intros Hsrc. apply c_string_shift. intros i Hi.
  unfold load8 at 1.
  rewrite copy_mem_spec by lia. rewrite Nat2Z.inj_succ.
  destruct (Z.leb_spec d (d + i)); [|lia].
  destruct (Z.ltb_spec (d + i) (d + Z.succ (Z.of_nat (List.length msg)))); [|lia].
  cbn [andb]. rewrite load8_land. f_equal. lia.
Qed.

Lemma copy_trace_pair (n : nat) : forall d s mm i,
  (d <= s \/ s + Z.of_nat n <= d) -> 0 <= i < Z.of_nat n ->
  exists l1 l2, copy_trace n d s mm =
    l1 ++ EvLoad 1 (s + i) (load8 mm (s + i))
       :: EvStore 1 (d + i) (load8 mm (s + i)) :: l2.
Proof.
  induction n as [|n IH]; intros d s mm i Hsrc Hi; [simpl in Hi; lia|].
  rewrite Nat2Z.inj_succ in *. simpl copy_trace.
  destruct (Z.eqb_spec i 0) as [->|Hne].
  - exists [], (copy_trace n (d + 1) (s + 1) (store8 mm d (load8 mm s))).
    rewrite !Z.add_0_r, load8_land. reflexivity.
  - destruct (IH (d + 1) (s + 1) (store8 mm d (load8 mm s)) (i - 1)) as (l1 & l2 & H);
      [lia | lia |].
    replace (s + 1 + (i - 1)) with (s + i) in H by lia.
    replace (d + 1 + (i - 1)) with (d + i) in H by lia.
    rewrite load8_store8_other in H by lia.
    exists (EvLoad 1 s (load8 mm s) :: EvStore 1 d (Z.land (load8 mm s) 255) :: l1), l2.
    rewrite H. reflexivity.
Qed.

(** The send of test_ipi, in full. *)
Lemma test_ipi_send_eq (fuel : nat) (st : machine) (h m : Z) (msg : list Z) :
  c_string (memory st) m msg -> (List.length msg < fuel)%nat ->
  exists e0,
    test_ipi_send fuel h m st =
    Some (tt,
          mkMachine (store32 (copy_mem (S (List.length msg)) SMP_ADDR m (memory st))
                       (CLINT_SOFT (clint_base st) h) 1) (clint_base st),
          e0 ++ copy_trace (S (List.length msg)) SMP_ADDR m (memory st)
             ++ [EvPuts "Send software interrupt. Hartid="; EvPutHex h;
                 EvFence [AccW] [AccO]; EvStore 4 (CLINT_SOFT (clint_base st) h) 1]).
Proof.
  intros Hs Hf.
  destruct (strlen_loop_c_string msg fuel m 0 st Hs Hf) as [e0 He0].
  exists e0. unfold test_ipi_send, strlen.
  eapply bind_eq'; [exact He0| |].
  - cbv beta. rewrite Z.add_0_l.
    replace (Z.of_nat (List.length msg) + 1) with (Z.of_nat (S (List.length msg))) by lia.
    eapply bind_eq'; [apply memcpy_eq| |].
    + rewrite Nat2Z.id. reflexivity.
    + reflexivity.
  - rewrite Nat2Z.id, app_nil_r. reflexivity.
Qed.

Lemma hrun_S (h : Z) (n : nat) (p : pc) :
  hrun h (S n) p = (p' <- hstep h p ;; hrun h n p').
Proof. reflexivity. Qed.

(** uart_puts(SMP_ADDR) of other_main prints the stored string. *)
Lemma hrun_print (msg : list Z) : forall h q st,
  c_string (memory st) q msg ->
  exists e, hrun h (S (List.length msg)) (OPrint q) st = Some (OSend, st, e) /\
            printed e = msg.
Proof.
  induction msg as [|c rest IH]; intros h q st Hs; simpl in Hs.
  - exists ([EvLoad 1 q 0] ++ []). split; [|reflexivity].
    rewrite hrun_S. eapply bind_eq; [|reflexivity].
    unfold hstep. unfold_M. cbn -[load8]. rewrite Hs. reflexivity.
  - destruct Hs as (Hc & Hnz & Hs).
    destruct (IH h (q + 1) st Hs) as (e & He & Hp).
    exists ([EvLoad 1 q c; EvPutc c] ++ e). split.
    + simpl List.length. rewrite hrun_S. eapply bind_eq; [|exact He].
      unfold hstep. unfold_M. cbn -[load8]. rewrite Hc.
      rewrite (proj2 (Z.eqb_neq c 0) Hnz). rewrite <- Hc, load8_land.
      reflexivity.
    + simpl. now rewrite Hp.
Qed.

Lemma msip_addr_range (h : Z) :
  0 <= h < MAX_HARTS -> CLINT_CTRL_ADDR <= msip_addr h /\ msip_addr h + 4 <= CLINT_END_HART_IPI.
Proof.
  unfold msip_addr, CLINT_SOFT, CLINT_END_HART_IPI, CLINT_MSIP_SIZE, CLINT_MSIP_OFFSET,
    MAX_HARTS. lia.
Qed.

(** other_main's loop, entered at the wait of wait_ipi with the hart's
    bit set and a message in the mailbox: it clears the bit and prints the
    message. *)
Lemma hrun_receive (st : machine) (h : Z) (msg : list Z) :
  clint_base st = CLINT_CTRL_ADDR -> 0 <= h < MAX_HARTS ->
  msip_word (memory st) h = 1 -> c_string (memory st) SMP_ADDR msg ->
  exists st' e, hrun h (List.length msg + 4) OWait st = Some (OSend, st', e) /\
                printed e = msg.
Proof.
  intros Hb Hh Hw Hs.
  set (st2 := set_memory st (store32 (memory st) (CLINT_SOFT (clint_base st) h) 0)).
  assert (Hs2 : c_string (memory st2) SMP_ADDR msg).
  { apply c_string_store32_below; [|exact Hs].
    rewrite Hb. pose proof (msip_addr_range h Hh).
    unfold msip_addr, CLINT_END_HART_IPI, SMP_ADDR, CLINT_CTRL_ADDR, MAX_HARTS,
      CLINT_MSIP_SIZE in *. lia. }
  destruct (hrun_print msg h SMP_ADDR st2 Hs2) as (e & He & Hp).
  exists st2, ([EvCsrRead CSR_mip MIP_MSIP]
               ++ ([EvFence [AccW] [AccO]; EvStore 4 (CLINT_SOFT (clint_base st) h) 0]
               ++ ([EvPuts "Software interrupt from Hart 0"; EvPuts "Message from Hart 0: "]
               ++ e))).
  split.
  - rewrite Nat.add_comm. simpl plus.
    rewrite hrun_S. eapply bind_eq.
    { unfold hstep. unfold_M. cbn -[msip_word]. rewrite Hw. reflexivity. }
    rewrite hrun_S. eapply bind_eq.
    { unfold hstep, clint_clear_soft. unfold_M. reflexivity. }
    rewrite hrun_S. eapply bind_eq.
    { unfold hstep. unfold_M. reflexivity. }
    exact He.
  - simpl. exact Hp.
Qed.

(** After the send, the mailbox holds the message and the target's bit is
    set. *)
Lemma send_delivers (fuel : nat) (st : machine) (h m : Z) (msg : list Z) :
  clint_base st = CLINT_CTRL_ADDR -> 0 <= h < MAX_HARTS ->
  c_string (memory st) m msg ->
  (SMP_ADDR <= m \/ m + Z.of_nat (List.length msg) < SMP_ADDR) ->
  (List.length msg < fuel)%nat ->
  exists st1 e, test_ipi_send fuel h m st = Some (tt, st1, e) /\
    clint_base st1 = CLINT_CTRL_ADDR /\ msip_word (memory st1) h = 1 /\
    c_string (memory st1) SMP_ADDR msg.
Proof.
  intros Hb Hh Hs Hsrc Hf.
  destruct (test_ipi_send_eq fuel st h m msg Hs Hf) as [e0 He].
  rewrite He. do 2 eexists. split; [reflexivity|]. cbn [memory clint_base].
  split; [exact Hb|]. rewrite Hb. split.
  - apply load32_store32_1.
  - apply c_string_store32_below.
    + pose proof (msip_addr_range h Hh).
      unfold msip_addr, CLINT_END_HART_IPI, SMP_ADDR, CLINT_CTRL_ADDR, MAX_HARTS,
        CLINT_MSIP_SIZE in *. lia.
    + apply copy_c_string; [lia | exact Hs].
Qed.

(** ** C3: the mailbox round trip *)

(** C3: with the controller initialised and no other send in between, the
    send of test_ipi of a NUL-free message [msg] to hart [h], followed by
    hart [h]'s receive (other_main's loop from its wait: wait_ipi, the two
    puts, uart_puts(SMP_ADDR)) prints exactly the bytes [msg], no more and
    no fewer.  The source buffer may only not lie just below the mailbox
    overlapping it (the forward copy would then read bytes it has already
    overwritten). *)
Theorem mailbox_round_trip (fuel : nat) (st : machine) (h m : Z) (msg : list Z)
  (Hb : clint_base st = CLINT_CTRL_ADDR) (Hh : 0 <= h < MAX_HARTS)
  (Hs : c_string (memory st) m msg)
  (Hsrc : SMP_ADDR <= m \/ m + Z.of_nat (List.length msg) < SMP_ADDR)
  (Hf : (List.length msg < fuel)%nat) :
  exists st1 e1 st2 e2,
    test_ipi_send fuel h m st = Some (tt, st1, e1) /\
    hrun h (List.length msg + 4) OWait st1 = Some (OSend, st2, e2) /\
    printed e2 = msg.
Proof.
  destruct (send_delivers fuel st h m msg Hb Hh Hs Hsrc Hf)
    as (st1 & e1 & Hsend & Hb1 & Hw1 & Hs1).
  destruct (hrun_receive st1 h msg Hb1 Hh Hw1 Hs1) as (st2 & e2 & Hr & Hp).
  exists st1, e1, st2, e2. auto.
Qed.

Lemma mailbox_round_trip_witness :
  exists st1 e1 st2 e2,
    test_ipi_send 10 1 100 s_hello = Some (tt, st1, e1) /\
    hrun 1 (List.length hello + 4) OWait st1 = Some (OSend, st2, e2) /\
    printed e2 = hello.
Proof.
  apply (mailbox_round_trip 10 s_hello 1 100 hello).
  - reflexivity.
  - unfold MAX_HARTS. lia.
  - simpl. repeat split; try reflexivity; discriminate.
  - right. unfold SMP_ADDR. simpl. lia.
  - simpl. lia.
Defined.

(** ** C4: how send publishes the bytes *)

Lemma fences_copy_trace (n : nat) : forall d s mm, fences (copy_trace n d s mm) = [].
Proof. induction n as [|n IH]; intros d s mm; [reflexivity|]. exact (IH _ _ _). Qed.

Lemma strlen_loop_no_fence (fuel : nat) : forall p cnt st r st' e,
  strlen_loop fuel p cnt st = Some (r, st', e) -> fences e = [].
Proof.
  induction fuel as [|f IH]; intros p cnt st r st' e H; [discriminate|].
  simpl strlen_loop in H. unfold plain_load8, raw_readb, bind, ret in H.
  destruct (Z.eqb _ 0).
  - inversion H; subst; reflexivity.
  - destruct (strlen_loop f (p + 1) (cnt + 1) st) as [[[r1 s1] e1]|] eqn:E; [|discriminate].
    inversion H; subst. exact (IH _ _ _ _ _ _ E).
Qed.

(** The send, with the strlen scan before the copy fence-free as well. *)
Lemma test_ipi_send_eq_no_fence (fuel : nat) (st : machine) (h m : Z) (msg : list Z) :
  c_string (memory st) m msg -> (List.length msg < fuel)%nat ->
  exists e0, fences e0 = [] /\
    test_ipi_send fuel h m st =
    Some (tt,
          mkMachine (store32 (copy_mem (S (List.length msg)) SMP_ADDR m (memory st))
                       (CLINT_SOFT (clint_base st) h) 1) (clint_base st),
          e0 ++ copy_trace (S (List.length msg)) SMP_ADDR m (memory st)
             ++ [EvPuts "Send software interrupt. Hartid="; EvPutHex h;
                 EvFence [AccW] [AccO]; EvStore 4 (CLINT_SOFT (clint_base st) h) 1]).
Proof.
  intros Hs Hf.
  destruct (strlen_loop_c_string msg fuel m 0 st Hs Hf) as [e0 He0].
  exists e0. split; [exact (strlen_loop_no_fence _ _ _ _ _ _ _ He0)|].
  unfold test_ipi_send, strlen.
  eapply bind_eq'; [exact He0| |].
  - cbv beta. rewrite Z.add_0_l.
    replace (Z.of_nat (List.length msg) + 1) with (Z.of_nat (S (List.length msg))) by lia.
    eapply bind_eq'; [apply memcpy_eq| |].
    + rewrite Nat2Z.id. reflexivity.
    + reflexivity.
  - rewrite Nat2Z.id, app_nil_r. reflexivity.
Qed.

(** C4 (as the code does it): the send of test_ipi copies each byte of the
    message and its NUL with a plain load and a plain byte store (memcpy);
    its trace is [pre], which holds no fence at all (none per byte), followed
    by the [fence w,o] that writew puts before the store raising the
    target's bit.  Every byte of the message and the NUL is stored in [pre],
    right after the load of its source byte, so before that fence. *)
Theorem send_plain_stores_then_fenced_raise (fuel : nat) (st : machine) (h m : Z)
  (msg : list Z) (Hs : c_string (memory st) m msg)
  (Hsrc : SMP_ADDR <= m \/ m + Z.of_nat (List.length msg) < SMP_ADDR)
  (Hf : (List.length msg < fuel)%nat) :
  exists st1 pre,
    test_ipi_send fuel h m st =
      Some (tt, st1, pre ++ [EvFence [AccW] [AccO];
                             EvStore 4 (CLINT_SOFT (clint_base st) h) 1]) /\
    fences pre = [] /\
    forall i, 0 <= i <= Z.of_nat (List.length msg) ->
      exists l1 l2, pre = l1 ++ EvLoad 1 (m + i) (load8 (memory st) (m + i))
                              :: EvStore 1 (SMP_ADDR + i) (load8 (memory st) (m + i)) :: l2.
Proof.
  destruct (test_ipi_send_eq_no_fence fuel st h m msg Hs Hf) as (e0 & He0 & He).
  rewrite He. eexists.
  exists (e0 ++ copy_trace (S (List.length msg)) SMP_ADDR m (memory st)
             ++ [EvPuts "Send software interrupt. Hartid="; EvPutHex h]).
  split; [|split].
  - f_equal. f_equal. rewrite <- !app_assoc. reflexivity.
  - unfold fences. rewrite !filter_app. fold (fences e0).
    rewrite He0, fences_copy_trace. reflexivity.
  - intros i Hi.
    destruct (copy_trace_pair (S (List.length msg)) SMP_ADDR m (memory st) i)
      as (l1 & l2 & Hp); [rewrite Nat2Z.inj_succ; lia | rewrite Nat2Z.inj_succ; lia |].
    exists (e0 ++ l1), (l2 ++ [EvPuts "Send software interrupt. Hartid="; EvPutHex h]).
    rewrite Hp. rewrite <- !app_assoc. reflexivity.
Qed.

Lemma send_plain_stores_then_fenced_raise_witness :
  exists st1 pre,
    test_ipi_send 10 1 100 s_a =
      Some (tt, st1, pre ++ [EvFence [AccW] [AccO];
                             EvStore 4 (CLINT_SOFT (clint_base s_a) 1) 1]) /\
    fences pre = [] /\
    forall i, 0 <= i <= Z.of_nat (List.length [97]) ->
      exists l1 l2, pre = l1 ++ EvLoad 1 (100 + i) (load8 (memory s_a) (100 + i))
                              :: EvStore 1 (SMP_ADDR + i) (load8 (memory s_a) (100 + i)) :: l2.
Proof.
  apply (send_plain_stores_then_fenced_raise 10 s_a 1 100 [97]).
  - simpl. repeat split; try reflexivity; discriminate.
  - right. unfold SMP_ADDR. simpl. lia.
  - simpl. lia.
Defined.

(** C4, counterexample: sending "a", the send's whole trace.  Its two byte
    stores into the mailbox (of 'a' and of the NUL) are plain stores with no
    fence before, between or after them; the send's only fence is the one
    of writew before the store raising hart 1's bit.  The ordered path,
    smp_memcpy, which the send does not call, would have put a [fence w,o]
    and a [fence i,r] around the load of each byte. *)
Lemma send_not_individually_fenced :
  trace (test_ipi_send 10 1 100) s_a =
    Some [EvLoad 1 100 97; EvLoad 1 101 0;
          EvLoad 1 100 97; EvStore 1 SMP_ADDR 97;
          EvLoad 1 101 0; EvStore 1 (SMP_ADDR + 1) 0;
          EvPuts "Send software interrupt. Hartid="; EvPutHex 1;
          EvFence [AccW] [AccO]; EvStore 4 (CLINT_SOFT CLINT_CTRL_ADDR 1) 1] /\
  trace (smp_memcpy SMP_ADDR 100 2) s_a =
    Some [EvFence [AccW] [AccO]; EvLoad 1 100 97; EvFence [AccI] [AccR];
          EvStore 1 SMP_ADDR 97;
          EvFence [AccW] [AccO]; EvLoad 1 101 0; EvFence [AccI] [AccR];
          EvStore 1 (SMP_ADDR + 1) 0].
Proof. split; vm_compute; reflexivity. Qed.

(** ** One step of a hart, case by case *)

Lemma hstep_Pause (h : Z) (st : machine) :
  hstep h Pause st =
  Some (if Z.eqb ZERO_HART h then Bcast CLINT_CTRL_ADDR else WaitOwn, st,
        [EvCsrWrite CSR_mie MIP_MSIP] ++ []).
Proof. unfold hstep. unfold_M. destruct (Z.eqb ZERO_HART h); reflexivity. Qed.

Lemma hstep_Bcast (h a : Z) (st : machine) :
  hstep h (Bcast a) st =
  Some (if Z.ltb (a + 4) CLINT_END_HART_IPI then Bcast (a + 4) else WaitOwn,
        set_memory st (store32 (memory st) a 1), [EvStore 4 a 1] ++ []).
Proof. unfold hstep. unfold_M. destruct (Z.ltb (a + 4) CLINT_END_HART_IPI); reflexivity. Qed.

Lemma testbit_mip (x : Z) :
  Z.eqb (Z.land (if Z.testbit x 0 then MIP_MSIP else 0) MIP_MSIP) 0 = negb (Z.testbit x 0).
Proof. destruct (Z.testbit x 0); reflexivity. Qed.

Lemma hstep_WaitOwn (h : Z) (st : machine) : exists e,
  hstep h WaitOwn st =
  Some (if Z.testbit (msip_word (memory st) h) 0 then ClearOwn else WaitOwn, st, e).
Proof.
  unfold hstep. unfold_M. cbn -[msip_word Z.land Z.testbit].
  rewrite testbit_mip. destruct (Z.testbit (msip_word (memory st) h) 0);
    eexists; reflexivity.
Qed.

Lemma hstep_ClearOwn (h : Z) (st : machine) :
  hstep h ClearOwn st =
  Some (Sweep CLINT_CTRL_ADDR,
        set_memory st (store32 (memory st) (CLINT_CTRL_ADDR + Z.shiftl h 2) 0),
        [EvStore 4 (CLINT_CTRL_ADDR + Z.shiftl h 2) 0] ++ []).
Proof. reflexivity. Qed.

Lemma hstep_Sweep (h a : Z) (st : machine) : exists e,
  hstep h (Sweep a) st =
  Some (if negb (Z.eqb (load32 (memory st) a) 0) then Sweep a
        else if Z.ltb (a + 4) CLINT_END_HART_IPI then Sweep (a + 4) else Entry, st, e).
Proof.
  unfold hstep. unfold_M. cbn -[load32 Z.ltb CLINT_END_HART_IPI].
  destruct (negb (Z.eqb (load32 (memory st) a) 0)); [eexists; reflexivity|].
  destruct (Z.ltb (a + 4) CLINT_END_HART_IPI); eexists; reflexivity.
Qed.

Lemma hstep_Entry (h : Z) (st : machine) :
  hstep h Entry st = if Z.eqb ZERO_HART h then None else Some (OInit, st, []).
Proof. unfold hstep. destruct (Z.eqb ZERO_HART h); reflexivity. Qed.

Lemma hstep_OInit (h : Z) (st : machine) : exists e,
  hstep h OInit st =
  Some (OWait, mkMachine (store32 (memory st) (msip_addr h) 0) CLINT_CTRL_ADDR, e).
Proof. eexists. reflexivity. Qed.

Lemma hstep_OWait (h : Z) (st : machine) : exists e,
  hstep h OWait st =
  Some (if Z.testbit (msip_word (memory st) h) 0 then OClear else OWait, st, e).
Proof.
  unfold hstep. unfold_M. cbn -[msip_word Z.land Z.testbit].
  rewrite testbit_mip. destruct (Z.testbit (msip_word (memory st) h) 0);
    eexists; reflexivity.
Qed.

Lemma shiftl_msip (h : Z) : CLINT_CTRL_ADDR + Z.shiftl h 2 = msip_addr h.
Proof.
  rewrite Z.shiftl_mul_pow2 by lia.
  unfold msip_addr, CLINT_SOFT, CLINT_MSIP_SIZE, CLINT_MSIP_OFFSET.
  change (2 ^ 2) with 4. ring.
Qed.

Lemma msip_word_store_self_0 (m : mem) (h : Z) :
  msip_word (store32 m (msip_addr h) 0) h = 0.
Proof. apply load32_store32_0. Qed.

Lemma msip_word_store_self_1 (m : mem) (h : Z) :
  msip_word (store32 m (msip_addr h) 1) h = 1.
Proof. apply load32_store32_1. Qed.

(** ** C8 pieces: what follows a seen wake *)

Lemma wait_ipi_loop_ends_seen (fuel : nat) : forall h st u st' e,
  wait_ipi_loop fuel h st = Some (u, st', e) ->
  st' = st /\ exists pre v, e = pre ++ [EvCsrRead CSR_mip v] /\ Z.land v MIP_MSIP <> 0.
Proof.
  induction fuel as [|fuel IH]; intros h st u st' e H; [discriminate|].
  simpl in H. unfold_M. unfold read_mip in H. unfold bind at 1 in H.
  set (v := if Z.testbit (msip_word (memory st) h) 0 then MIP_MSIP else 0) in H.
  destruct (Z.eqb_spec (Z.land v MIP_MSIP) 0) as [Hz|Hnz].
  - unfold bind, wfi, emit in H.
    destruct (wait_ipi_loop fuel h st) as [[[u1 s1] e1]|] eqn:E; [|discriminate].
    injection H as <- <- <-.
    destruct (IH h st u1 s1 e1 E) as (-> & pre & v' & -> & Hv').
    split; [reflexivity|].
    exists ([EvCsrRead CSR_mip v] ++ ([EvWfi] ++ pre)), v'.
    split; [rewrite <- !app_assoc; reflexivity | exact Hv'].
  - unfold ret in H. injection H as <- <- <-.
    split; [reflexivity|]. exists [], v. split; [reflexivity | exact Hnz].
Qed.

Ltac cbn_M := cbn -[msip_word load32 load8 store32 Z.testbit Z.ltb CLINT_END_HART_IPI].

(** One pc case of [seen_wake_next]: run the step symbolically, split on its
    tests, and look at the last event. *)
Ltac seen_case h st Hobs :=
  unfold hstep; unfold_M;
  unfold clint_clear_soft, clint_send_soft, read_mip, puts; unfold_M; cbn_M;
  try (destruct (Z.testbit (msip_word (memory st) h) 0); cbn_M);
  repeat match goal with |- context [if ?c then _ else _] => destruct c; cbn_M end;
  let H := fresh "H" in
  intro H; try discriminate H; injection H as <- <- <-;
  try (left; reflexivity); try (right; reflexivity);
  exfalso; revert Hobs; cbn_M; try discriminate.

Lemma seen_wake_next (h : Z) (p : pc) (st : machine) (p' : pc) (st' : machine)
  (evs : list event) :
  hstep h p st = Some (p', st', evs) -> observed_set evs = true ->
  p' = ClearOwn \/ p' = OClear.
Proof.
  intros H Hobs. revert H.
  destruct p;
    match goal with
    | |- hstep _ ClearOwn _ = _ -> _ =>
        rewrite hstep_ClearOwn; generalize (CLINT_CTRL_ADDR + Z.shiftl h 2);
        intros x H; injection H as _ _ <-; discriminate Hobs
    | |- _ => seen_case h st Hobs
    end.
Qed.

Lemma hstep_OClear (h : Z) (st : machine) :
  hstep h OClear st =
  Some (OPuts, set_memory st (store32 (memory st) (CLINT_SOFT (clint_base st) h) 0),
        [EvFence [AccW] [AccO]; EvStore 4 (CLINT_SOFT (clint_base st) h) 0]).
Proof. reflexivity. Qed.

(** C8: [wait_ipi] (main.c) and both wait loops of the pc model: the step
    after the one that sees MSIP set in mip stores 0 to the hart's own msip
    word, with nothing before that store but the write fence of [writew];
    in [wait_ipi] the trace ends with the read of mip that saw the bit, the
    fence and the clearing store. *)
Theorem clear_right_after_wake :
  (forall h p st p' st' evs,
     hstep h p st = Some (p', st', evs) -> observed_set evs = true ->
     forall st2, clint_base st2 = CLINT_CTRL_ADDR ->
     exists p'' st3 pre,
       hstep h p' st2 = Some (p'', st3, pre ++ [EvStore 4 (msip_addr h) 0]) /\
       Forall (fun e => e = EvFence [AccW] [AccO]) pre /\
       msip_word (memory st3) h = 0) /\
  (forall fuel h st r st' evs,
     wait_ipi fuel h st = Some (r, st', evs) ->
     st' = set_memory st (store32 (memory st) (CLINT_SOFT (clint_base st) h) 0) /\
     exists pre v,
       evs = pre ++ [EvCsrRead CSR_mip v; EvFence [AccW] [AccO];
                     EvStore 4 (CLINT_SOFT (clint_base st) h) 0] /\
       Z.land v MIP_MSIP <> 0).
Proof.
  split.
  - intros h p st p' st' evs H Hobs st2 Hb.
    destruct (seen_wake_next h p st p' st' evs H Hobs) as [-> | ->].
    + exists (Sweep CLINT_CTRL_ADDR),
        (set_memory st2 (store32 (memory st2) (msip_addr h) 0)), [].
      rewrite hstep_ClearOwn, shiftl_msip. split; [reflexivity|].
      split; [constructor | apply msip_word_store_self_0].
    + rewrite hstep_OClear, Hb.
      exists OPuts, (set_memory st2 (store32 (memory st2) (msip_addr h) 0)),
        [EvFence [AccW] [AccO]].
      split; [reflexivity|].
      split; [repeat constructor | apply msip_word_store_self_0].
  - intros fuel h st r st' evs H.
    unfold wait_ipi, bind at 1 in H.
    destruct (wait_ipi_loop fuel h st) as [[[u s1] e1]|] eqn:E; [|discriminate].
    destruct (wait_ipi_loop_ends_seen fuel h st u s1 e1 E) as (-> & pre & v & -> & Hv).
    unfold clint_clear_soft in H. unfold_M. revert H. unfold_M. cbn -[store32].
    intro H. injection H as <- <- <-.
    split; [reflexivity|].
    exists pre, v. split; [rewrite <- app_assoc; reflexivity | exact Hv].
Qed.

Lemma clear_right_after_wake_witness :
  hstep 1 WaitOwn s_w1 = Some (ClearOwn, s_w1, [EvWfi; EvCsrRead CSR_mip MIP_MSIP]) /\
  observed_set [EvWfi; EvCsrRead CSR_mip MIP_MSIP] = true /\
  (exists p'' st3 pre,
     hstep 1 ClearOwn s_w1 = Some (p'', st3, pre ++ [EvStore 4 (msip_addr 1) 0]) /\
     Forall (fun e => e = EvFence [AccW] [AccO]) pre /\
     msip_word (memory st3) 1 = 0) /\
  (exists evs, wait_ipi 3 1 s_w1 = Some (0, set_memory s_w1
      (store32 (memory s_w1) (CLINT_SOFT (clint_base s_w1) 1) 0), evs)).
Proof.
  assert (E : hstep 1 WaitOwn s_w1 =
              Some (ClearOwn, s_w1, [EvWfi; EvCsrRead CSR_mip MIP_MSIP]))
    by reflexivity.
  split; [exact E|]. split; [reflexivity|]. split.
  - exact (proj1 clear_right_after_wake 1 WaitOwn s_w1 ClearOwn s_w1 _ E
             eq_refl s_w1 eq_refl).
  - destruct (wait_ipi 3 1 s_w1) as [[[r st'] evs]|] eqn:W;
      [|vm_compute in W; discriminate W].
    destruct (proj2 clear_right_after_wake 3%nat 1 s_w1 r st' evs W) as [-> _].
    assert (Hr : r = 0) by (vm_compute in W; inversion W; reflexivity).
    rewrite Hr. exists evs. reflexivity.
Defined.

(** ** The barrier invariant *)

Lemma upd_pc_same (f : Z -> pc) (i : Z) (p : pc) : upd_pc f i p i = p.
Proof. unfold upd_pc. rewrite Z.eqb_refl. reflexivity. Qed.

Lemma upd_pc_other (f : Z -> pc) (i j : Z) (p : pc) : j <> i -> upd_pc f i p j = f j.
Proof. intro H. unfold upd_pc. apply Z.eqb_neq in H. rewrite H. reflexivity. Qed.

Ltac msip_arith :=
  unfold CLINT_END_HART_IPI, msip_addr, CLINT_SOFT, CLINT_MSIP_SIZE,
    CLINT_MSIP_OFFSET, MAX_HARTS, ZERO_HART in *; lia.

Lemma msip_addr_succ (k : Z) : msip_addr (k + 1) = msip_addr k + 4.
Proof. msip_arith. Qed.

Lemma testbit_word_0 : Z.testbit 0 0 = false.
Proof. reflexivity. Qed.

Lemma testbit_word_1 : Z.testbit 1 0 = true.
Proof. reflexivity. Qed.

Lemma before_Pause (h : Z) : prim_before Pause h.
Proof. left. reflexivity. Qed.

Lemma before_Bcast (a h : Z) : prim_before (Bcast a) h <-> a <= msip_addr h.
Proof.
  unfold prim_before. split.
  - intros [H | (a' & H & Ha)]; [discriminate | injection H as ->; exact Ha].
  - intro Ha. right. exists a. split; [reflexivity | exact Ha].
Qed.

Lemma not_before (p : pc) (h : Z) :
  p <> Pause -> (forall a, p <> Bcast a) -> ~ prim_before p h.
Proof. intros H1 H2 [H | (a & H & _)]; [exact (H1 H) | exact (H2 a H)]. Qed.

Lemma swept_Sweep (a h : Z) : prim_swept (Sweep a) h <-> msip_addr h < a.
Proof.
  unfold prim_swept. split.
  - intros [(a' & H & Ha) | H]; [injection H as ->; exact Ha | discriminate].
  - intro Ha. left. exists a. split; [reflexivity | exact Ha].
Qed.

Lemma not_swept (p : pc) (h : Z) :
  (forall a, p <> Sweep a) -> p <> Entry -> ~ prim_swept p h.
Proof. intros H1 H2 [(a & H & _) | H]; [exact (H1 a H) | exact (H2 H)]. Qed.

Lemma prim_before_dec (p0 : pc) (h : Z) : {prim_before p0 h} + {~ prim_before p0 h}.
Proof.
  destruct p0 as [|a| | |a| | | | | | |].
  all: try (right; apply not_before; [discriminate | intros ? ?; discriminate]).
  - left. apply before_Pause.
  - destruct (Z_le_dec a (msip_addr h)) as [Ha|Ha].
    + left. apply before_Bcast. exact Ha.
    + right. rewrite before_Bcast. exact Ha.
Qed.

Lemma parked_not_acked (p : pc) : parked p -> ~ acked p.
Proof.
  intros [-> | ->] [(a & H) | [H | [H | H]]]; discriminate.
Qed.

Lemma sec_inv_transfer (p0 p0' p : pc) (wv h : Z) :
  (prim_before p0' h <-> prim_before p0 h) ->
  (prim_swept p0' h -> prim_swept p0 h) ->
  sec_inv p0 p wv h -> sec_inv p0' p wv h.
Proof.
  intros Hb Hs (H1 & H2 & H3). split; [|split].
  - intro B. apply H1. apply Hb. exact B.
  - intro B. apply H2. intro B'. apply B. apply Hb. exact B'.
  - intro S. apply H3. apply Hs. exact S.
Qed.

Lemma sec_inv_shape (p0 p : pc) (wv h : Z) :
  sec_inv p0 p wv h -> parked p \/ p = ClearOwn \/ acked p.
Proof.
  intros (H1 & H2 & _).
  destruct (prim_before_dec p0 h) as [B|B].
  - left. apply (H1 B).
  - destruct (H2 B) as [[[P | C] _] | [A _]]; auto.
Qed.

Lemma sec_inv_acked_inv (p0 p : pc) (wv h : Z) :
  sec_inv p0 p wv h -> acked p -> ~ prim_before p0 h /\ wv = 0.
Proof.
  intros (H1 & H2 & _) A.
  assert (B : ~ prim_before p0 h).
  { intro B. destruct (H1 B) as [P _]. exact (parked_not_acked p P A). }
  split; [exact B|].
  destruct (H2 B) as [[[P | C] _] | [_ W]]; [| | exact W].
  - exfalso. exact (parked_not_acked p P A).
  - exfalso. subst p. destruct A as [(a & H) | [H | [H | H]]]; discriminate.
Qed.

Lemma sec_inv_acked (p0 p : pc) (wv h : Z) :
  ~ prim_before p0 h -> acked p -> wv = 0 -> sec_inv p0 p wv h.
Proof.
  intros B A W. split; [|split].
  - intro B'. contradiction.
  - intros _. right. split; assumption.
  - intros _. split; assumption.
Qed.

Lemma sec_inv_raised (p0 p : pc) (h : Z) :
  ~ prim_before p0 h -> ~ prim_swept p0 h -> (parked p \/ p = ClearOwn) ->
  sec_inv p0 p 1 h.
Proof.
  intros B S P. split; [|split].
  - intro B'. contradiction.
  - intros _. left. split; [exact P | reflexivity].
  - intro S'. contradiction.
Qed.

Lemma sweep_seen_zero (a : Z) (p : pc) (h : Z) : sec_inv (Sweep a) p 0 h -> acked p.
Proof.
  intros (_ & H2 & _).
  assert (B : ~ prim_before (Sweep a) h)
    by (apply not_before; [discriminate | intros ? ?; discriminate]).
  destruct (H2 B) as [[_ W] | [A _]]; [discriminate W | exact A].
Qed.

(** A step of the primary keeps the invariant. *)
Lemma primary_step_inv (p0 p0' : pc) (pcs : Z -> pc) (st st' : machine)
  (evs : list event) :
  prim_ok p0 ->
  (forall h, 1 <= h < MAX_HARTS -> sec_inv p0 (pcs h) (msip_word (memory st) h) h) ->
  hstep ZERO_HART p0 st = Some (p0', st', evs) ->
  prim_ok p0' /\
  forall h, 1 <= h < MAX_HARTS -> sec_inv p0' (pcs h) (msip_word (memory st') h) h.
Proof.
  intros Hok Hsec H.
  destruct Hok as [-> | [(a & -> & k & Hk & ->) | [-> | [-> | [(a & -> & k & Hk & ->) | ->]]]]].
  - (* Pause *)
    rewrite hstep_Pause in H. injection H as <- <- _.
    split.
    + right. left. exists CLINT_CTRL_ADDR. split; [reflexivity|].
      exists 0. split; [msip_arith | reflexivity].
    + intros h Hh. apply sec_inv_transfer with Pause; [| |apply Hsec; exact Hh].
      * rewrite before_Bcast. split; intros _; [apply before_Pause | msip_arith].
      * intro S. exfalso. revert S. apply not_swept; discriminate.
  - (* Bcast *)
    rewrite hstep_Bcast in H. injection H as <- <- _.
    cbn [memory set_memory].
    destruct (Z.ltb_spec (msip_addr k + 4) CLINT_END_HART_IPI) as [Hlt | Hge].
    + split.
      * right. left. exists (msip_addr k + 4). split; [reflexivity|].
        exists (k + 1). split; [msip_arith | apply eq_sym, msip_addr_succ].
      * intros h Hh. destruct (Z.eq_dec k h) as [<- | Hkh].
        -- rewrite msip_word_store_self_1. apply sec_inv_raised.
           ++ rewrite before_Bcast. lia.
           ++ apply not_swept; discriminate.
           ++ destruct (Hsec k Hh) as (H1 & _).
              left. apply H1. apply before_Bcast. lia.
        -- rewrite msip_word_store_other by exact Hkh.
           apply sec_inv_transfer with (Bcast (msip_addr k)); [| |apply Hsec; exact Hh].
           ++ rewrite !before_Bcast.
              destruct (msip_addr_apart k h Hkh); lia.
           ++ intro S. exfalso. revert S. apply not_swept; discriminate.
    + split.
      * right. right. left. reflexivity.
      * intros h Hh. destruct (Z.eq_dec k h) as [<- | Hkh].
        -- rewrite msip_word_store_self_1. apply sec_inv_raised.
           ++ apply not_before; discriminate.
           ++ apply not_swept; discriminate.
           ++ destruct (Hsec k Hh) as (H1 & _).
              left. apply H1. apply before_Bcast. lia.
        -- rewrite msip_word_store_other by exact Hkh.
           apply sec_inv_transfer with (Bcast (msip_addr k)); [| |apply Hsec; exact Hh].
           ++ rewrite before_Bcast. split; intro B.
              ** exfalso. revert B. apply not_before; discriminate.
              ** exfalso. destruct (msip_addr_apart k h Hkh); msip_arith.
           ++ intro S. exfalso. revert S. apply not_swept; discriminate.
  - (* WaitOwn *)
    destruct (hstep_WaitOwn ZERO_HART st) as [e He]. rewrite He in H.
    injection H as <- <- _.
    match goal with |- context [if ?c then _ else _] => destruct c end; split.
    all: try (right; right; right; left; reflexivity).
    all: try (right; right; left; reflexivity).
    all: intros h Hh; apply sec_inv_transfer with WaitOwn; [| |apply Hsec; exact Hh].
    all: try (split; intro B; exfalso; revert B; apply not_before; discriminate).
    all: intro S; exfalso; revert S; apply not_swept; discriminate.
  - (* ClearOwn *)
    rewrite hstep_ClearOwn, shiftl_msip in H. injection H as <- <- _.
    cbn [memory set_memory]. split.
    + right. right. right. right. left. exists CLINT_CTRL_ADDR. split; [reflexivity|].
      exists 0. split; [msip_arith | reflexivity].
    + intros h Hh. rewrite msip_word_store_other by msip_arith.
      apply sec_inv_transfer with ClearOwn; [| |apply Hsec; exact Hh].
      * split; intro B; exfalso; revert B; apply not_before; discriminate.
      * rewrite swept_Sweep. intro. msip_arith.
  - (* Sweep *)
    destruct (hstep_Sweep ZERO_HART (msip_addr k) st) as [e He]. rewrite He in H.
    injection H as <- <- _.
    fold (msip_word (memory st) k).
    destruct (Z.eqb_spec (msip_word (memory st) k) 0) as [Hz | Hnz]; cbn [negb].
    + destruct (Z.ltb_spec (msip_addr k + 4) CLINT_END_HART_IPI) as [Hlt | Hge].
      * split.
        -- right. right. right. right. left. exists (msip_addr k + 4). split; [reflexivity|].
           exists (k + 1). split; [msip_arith | apply eq_sym, msip_addr_succ].
        -- intros h Hh. destruct (Z.eq_dec h k) as [-> | Hkh].
           ++ pose proof (Hsec k Hh) as Hk'. rewrite Hz in Hk' |- *.
              apply sec_inv_acked; [apply not_before; discriminate | | reflexivity].
              exact (sweep_seen_zero _ _ _ Hk').
           ++ apply sec_inv_transfer with (Sweep (msip_addr k)); [| |apply Hsec; exact Hh].
              ** split; intro B; exfalso; revert B; apply not_before; discriminate.
              ** rewrite !swept_Sweep. destruct (msip_addr_apart h k Hkh); lia.
      * split.
        -- right. right. right. right. right. reflexivity.
        -- intros h Hh. destruct (Z.eq_dec h k) as [-> | Hkh].
           ++ pose proof (Hsec k Hh) as Hk'. rewrite Hz in Hk' |- *.
              apply sec_inv_acked; [apply not_before; discriminate | | reflexivity].
              exact (sweep_seen_zero _ _ _ Hk').
           ++ apply sec_inv_transfer with (Sweep (msip_addr k)); [| |apply Hsec; exact Hh].
              ** split; intro B; exfalso; revert B; apply not_before; discriminate.
              ** intros _. apply swept_Sweep. destruct (msip_addr_apart h k Hkh); msip_arith.
    + split.
      * right. right. right. right. left. exists (msip_addr k).
        split; [reflexivity | exists k; split; [exact Hk | reflexivity]].
      * exact Hsec.
  - (* Entry *)
    rewrite hstep_Entry in H. discriminate H.
Qed.

Lemma sec_inv_entry_acked (p0 p p' : pc) (wv h : Z) :
  sec_inv p0 p wv h -> acked p -> acked p' -> sec_inv p0 p' wv h.
Proof.
  intros Hs A A'. destruct (sec_inv_acked_inv p0 p wv h Hs A) as [B W].
  apply sec_inv_acked; assumption.
Qed.

(** A step of a secondary hart [i] keeps the invariant. *)
Lemma secondary_step_inv (p0 : pc) (pcs : Z -> pc) (i : Z) (st st' : machine)
  (p' : pc) (evs : list event) :
  1 <= i < MAX_HARTS ->
  (forall h, 1 <= h < MAX_HARTS -> sec_inv p0 (pcs h) (msip_word (memory st) h) h) ->
  hstep i (pcs i) st = Some (p', st', evs) ->
  forall h, 1 <= h < MAX_HARTS ->
    sec_inv p0 (upd_pc pcs i p' h) (msip_word (memory st') h) h.
Proof.
  intros Hi Hsec H.
  assert (Hself : sec_inv p0 p' (msip_word (memory st') i) i /\
                  forall h, h <> i -> msip_word (memory st') h = msip_word (memory st) h).
  { pose proof (Hsec i Hi) as Hold.
    assert (Hz : Z.eqb ZERO_HART i = false) by (apply Z.eqb_neq; msip_arith).
    destruct (sec_inv_shape _ _ _ _ Hold) as [[E | E] | [E | [(a & E) | [E | [E | E]]]]];
      rewrite E in H, Hold.
    - (* Pause *)
      rewrite hstep_Pause, Hz in H. injection H as <- <- _.
      split; [|reflexivity].
      destruct Hold as (H1 & H2 & H3). split; [|split].
      + intro B. destruct (H1 B) as [_ W]. split; [right; reflexivity | exact W].
      + intro B. destruct (H2 B) as [[_ W] | [A _]].
        * left. split; [left; right; reflexivity | exact W].
        * exfalso. exact (parked_not_acked Pause (or_introl eq_refl) A).
      + intro S. destruct (H3 S) as [A _].
        exfalso. exact (parked_not_acked Pause (or_introl eq_refl) A).
    - (* WaitOwn *)
      destruct (hstep_WaitOwn i st) as [e He]. rewrite He in H.
      injection H as <- <- _. split; [|reflexivity].
      match goal with |- context [if ?c then _ else _] => destruct c eqn:T end;
        [|exact Hold].
      destruct Hold as (H1 & H2 & H3).
      assert (B : ~ prim_before p0 i).
      { intro B. destruct (H1 B) as [_ W]. rewrite W in T. discriminate T. }
      destruct (H2 B) as [[_ W] | [A _]].
      + rewrite W. apply sec_inv_raised; [exact B | | right; reflexivity].
        intro S. destruct (H3 S) as [A _].
        exact (parked_not_acked WaitOwn (or_intror eq_refl) A).
      + exfalso. exact (parked_not_acked WaitOwn (or_intror eq_refl) A).
    - (* ClearOwn *)
      rewrite hstep_ClearOwn, shiftl_msip in H. injection H as <- <- _.
      cbn [memory set_memory].
      split; [|intros h Hh; apply msip_word_store_other; congruence].
      rewrite msip_word_store_self_0.
      apply sec_inv_acked; [| left; eexists; reflexivity | reflexivity].
      intro B. destruct Hold as (H1 & _). destruct (H1 B) as [[P | P] _]; discriminate P.
    - (* Sweep *)
      destruct (hstep_Sweep i a st) as [e He]. rewrite He in H.
      injection H as <- <- _. split; [|reflexivity].
      apply sec_inv_entry_acked with (Sweep a); [exact Hold | left; eexists; reflexivity|].
      destruct (negb _); [left; eexists; reflexivity|].
      destruct (Z.ltb _ _); [left; eexists; reflexivity | right; left; reflexivity].
    - (* Entry *)
      rewrite hstep_Entry, Hz in H. injection H as <- <- _. split; [|reflexivity].
      apply sec_inv_entry_acked with Entry;
        [exact Hold | right; left; reflexivity | right; right; left; reflexivity].
    - (* OInit *)
      destruct (hstep_OInit i st) as [e He]. rewrite He in H.
      injection H as <- <- _. cbn [memory].
      split; [|intros h Hh; apply msip_word_store_other; congruence].
      rewrite msip_word_store_self_0.
      destruct (sec_inv_acked_inv _ _ _ _ Hold) as [B _];
        [right; right; left; reflexivity|].
      apply sec_inv_acked; [exact B | right; right; right; reflexivity | reflexivity].
    - (* OWait *)
      destruct (hstep_OWait i st) as [e He]. rewrite He in H.
      destruct (sec_inv_acked_inv _ _ _ _ Hold) as [_ W];
        [right; right; right; reflexivity|].
      rewrite W in H. injection H as <- <- _. split; [exact Hold | reflexivity]. }
  destruct Hself as [Hself Hmem].
  intros h Hh. destruct (Z.eq_dec h i) as [-> | Hhi].
  - rewrite upd_pc_same. exact Hself.
  - rewrite upd_pc_other, Hmem by exact Hhi. apply Hsec. exact Hh.
Qed.

Lemma barrier_inv_step (g g' : gstate) : barrier_inv g -> gstep g g' -> barrier_inv g'.
Proof.
  intros [Hok Hsec] Hst. destruct Hst as [g i p' s' evs Hi H].
  unfold barrier_inv. cbn [gpc gmach].
  destruct (Z.eq_dec i ZERO_HART) as [-> | Hi0].
  - rewrite upd_pc_same.
    destruct (primary_step_inv (gpc g ZERO_HART) p' (gpc g) (gmach g) s' evs Hok Hsec H)
      as [Hok' Hsec'].
    split; [exact Hok'|].
    intros h Hh. rewrite upd_pc_other by msip_arith. apply Hsec'. exact Hh.
  - rewrite upd_pc_other by exact (fun E => Hi0 (eq_sym E)).
    split; [exact Hok|].
    apply (secondary_step_inv (gpc g ZERO_HART) (gpc g) i (gmach g) s' p' evs);
      [msip_arith | exact Hsec | exact H].
Qed.

Lemma barrier_inv_boot (s0 : machine) :
  (forall h, 0 <= h < MAX_HARTS -> msip_word (memory s0) h = 0) ->
  barrier_inv (boot s0).
Proof.
  intro H0. split; [left; reflexivity|].
  intros h Hh. cbn [gpc gmach boot]. split; [|split].
  - intros _. split; [left; reflexivity | apply H0; lia].
  - intro B. exfalso. exact (B (before_Pause h)).
  - intro S. exfalso. revert S. apply not_swept; discriminate.
Qed.

Lemma barrier_inv_reachable (s0 : machine) (g : gstate) :
  (forall h, 0 <= h < MAX_HARTS -> msip_word (memory s0) h = 0) ->
  reachable (boot s0) g -> barrier_inv g.
Proof.
  intros H0 Hr. induction Hr as [|g1 g2 _ IH Hst].
  - apply barrier_inv_boot. exact H0.
  - exact (barrier_inv_step g1 g2 IH Hst).
Qed.

Lemma run_reachable_from (sched : list Z) : forall g0 g g',
  reachable g0 g -> run sched g = Some g' -> reachable g0 g'.
Proof.
  induction sched as [|i rest IH]; intros g0 g g' Hr H.
  - injection H as <-. exact Hr.
  - simpl in H.
    destruct (Z.leb_spec 0 i); [|discriminate H].
    destruct (Z.ltb_spec i MAX_HARTS); [|discriminate H].
    cbn [andb] in H.
    destruct (hstep i (gpc g i) (gmach g)) as [[[p' s'] evs]|] eqn:E; [|discriminate H].
    apply (IH g0 (mkG s' (upd_pc (gpc g) i p'))); [|exact H].
    apply reach_step with g; [exact Hr|].
    apply GStep with evs; [lia | exact E].
Qed.

(** C1: every interleaving of the five harts from a boot state whose msip
    words are all clear: once the primary's sweep has finished (the
    primary's pc is past the barrier), the msip word of every secondary
    reads 0, so [is_pending h] on the controller at CLINT_CTRL_ADDR is
    false; each secondary has by then acknowledged its wake. *)
Theorem barrier_sweep_clears_all (s0 : machine) (g : gstate)
  (H0 : forall h, 0 <= h < MAX_HARTS -> msip_word (memory s0) h = 0)
  (Hr : reachable (boot s0) g) (Hdone : gpc g ZERO_HART = Entry) :
  forall h, 1 <= h < MAX_HARTS ->
    msip_word (memory (gmach g)) h = 0 /\
    result (is_pending h) (mkMachine (memory (gmach g)) CLINT_CTRL_ADDR) = Some false /\
    acked (gpc g h).
Proof.
  intros h Hh.
  destruct (barrier_inv_reachable s0 g H0 Hr) as [_ Hsec].
  destruct (Hsec h Hh) as (_ & _ & H3).
  rewrite Hdone in H3. destruct (H3 (or_intror eq_refl)) as [A W].
  split; [exact W|]. split; [|exact A].
  rewrite is_pending_eq. cbn [memory clint_base].
  change (load32 (memory (gmach g)) (CLINT_SOFT CLINT_CTRL_ADDR h))
    with (msip_word (memory (gmach g)) h).
  rewrite W. reflexivity.
Qed.

Lemma barrier_sweep_clears_all_witness :
  (forall h, 0 <= h < MAX_HARTS -> msip_word (memory s_zero) h = 0) /\
  reachable (boot s_zero) g_released /\ gpc g_released ZERO_HART = Entry /\
  (msip_word (memory (gmach g_released)) 4 = 0 /\
   result (is_pending 4) (mkMachine (memory (gmach g_released)) CLINT_CTRL_ADDR)
     = Some false /\
   acked (gpc g_released 4)).
Proof.
  assert (H0 : forall h, 0 <= h < MAX_HARTS -> msip_word (memory s_zero) h = 0)
    by (intros; reflexivity).
  assert (Hr : reachable (boot s_zero) g_released).
  { unfold g_released.
    destruct (run barrier_sched (boot s_zero)) as [g|] eqn:E;
      [| vm_compute in E; discriminate E].
    exact (run_reachable_from barrier_sched (boot s_zero) (boot s_zero) g
             (reach_refl _) E). }
  assert (Hd : gpc g_released ZERO_HART = Entry) by (vm_compute; reflexivity).
  split; [exact H0|]. split; [exact Hr|]. split; [exact Hd|].
  exact (barrier_sweep_clears_all s_zero g_released H0 Hr Hd 4 ltac:(msip_arith)).
Defined.

(** * Properties of the rest of the library and driver code *)

Ltac zcmp :=
  repeat match goal with
  | |- context [Z.leb ?a ?b] => destruct (Z.leb_spec a b)
  | |- context [Z.ltb ?a ?b] => destruct (Z.ltb_spec a b)
  end; simpl andb; cbv iota; try lia.

Lemma memset_loop_spec (n : nat) : forall p c st, exists e st',
  memset_loop n p c st = Some (tt, st', e) /\ clint_base st' = clint_base st /\
  forall a, memory st' a =
    if (p <=? a) && (a <? p + Z.of_nat n) then Z.land c 255 else memory st a.
Proof.
  induction n as [|n IH]; intros p c st.
  - exists [], st. split; [reflexivity|split; [reflexivity|]].
    intro a. cbn [Z.of_nat]. rewrite Z.add_0_r.
    destruct (Z.leb_spec p a), (Z.ltb_spec a p); simpl; try lia; reflexivity.
  - simpl memset_loop. unfold_M.
    destruct (IH (p + 1) c (mkMachine (store8 (memory st) p c) (clint_base st))) as (e & st' & He & Hb & Hm).
    simpl in Hb. simpl. rewrite He. do 2 eexists. split; [reflexivity|]. split; [exact Hb|].
    intro a. rewrite Hm. cbn [memory]. unfold store8. rewrite ?Nat2Z.inj_succ, ?Zpos_P_of_succ_nat.
    destruct (Z.eqb_spec a p) as [->|Hne].
    + rewrite upd_same. zcmp; reflexivity.
    + rewrite upd_other by exact Hne. zcmp; reflexivity.
Qed.

(** X1 (memset): for a size [n >= 0], memset returns [s], writes the low
    byte of [c] into each of the [n] bytes from [s] and leaves every other
    byte of memory as it was. *)
Theorem memset_fills (s c n : Z) (st : machine) (Hn : 0 <= n) :
  exists st' e, memset s c n st = Some (s, st', e) /\ clint_base st' = clint_base st /\
  forall a, memory st' a =
    if (s <=? a) && (a <? s + n) then Z.land c 255 else memory st a.
Proof.
  unfold memset. destruct (memset_loop_spec (Z.to_nat n) s c st) as (e & st' & He & Hb & Hm).
  exists st', (e ++ []). split; [unfold bind, ret; rewrite He; reflexivity|].
  split; [exact Hb|]. intro a. rewrite Hm, Z2Nat.id by exact Hn. reflexivity.
Qed.

Lemma memmove_back_spec (n : nat) : forall d s st, s <= d -> exists e st',
  memmove_back n d s st = Some (tt, st', e) /\ clint_base st' = clint_base st /\
  forall a, memory st' a =
    if (d - Z.of_nat n <=? a) && (a <? d) then load8 (memory st) (s - (d - a))
    else memory st a.
Proof.
  induction n as [|n IH]; intros d s st Hsd.
  - exists [], st. split; [reflexivity|split; [reflexivity|]].
    intro a. cbn [Z.of_nat]. rewrite Z.sub_0_r.
    destruct (Z.leb_spec d a), (Z.ltb_spec a d); simpl; try lia; reflexivity.
  - simpl memmove_back. unfold_M.
    destruct (IH (d - 1) (s - 1)
      (mkMachine (store8 (memory st) (d - 1) (load8 (memory st) (s - 1))) (clint_base st))) as (e & st' & He & Hb & Hm);
      [lia|].
    simpl in Hb. simpl. rewrite He. do 2 eexists. split; [reflexivity|]. split; [exact Hb|].
    intro a. rewrite Hm. cbn [memory]. rewrite ?Nat2Z.inj_succ, ?Zpos_P_of_succ_nat.
    destruct (Z.eqb_spec a (d - 1)) as [->|Hne].
    + unfold store8 at 2. rewrite upd_same, load8_land. zcmp. f_equal; lia.
    + zcmp.
      * rewrite load8_store8_other by lia. f_equal. lia.
      * unfold store8. rewrite upd_other by lia. reflexivity.
      * unfold store8. rewrite upd_other by lia. reflexivity.
Qed.

(** X2 (memmove): for a size [n >= 0], memmove returns [dst] and leaves at
    every [dst + i], [0 <= i < n], the byte that was at [src + i] before the
    call, whatever the overlap of the two ranges; no other byte changes.
    When [dst] does not start strictly inside the source range it does the
    very same loads and stores as memcpy. *)
Theorem memmove_moves (dst src n : Z) (st : machine) (Hn : 0 <= n) :
  exists st' e, memmove dst src n st = Some (dst, st', e) /\
  clint_base st' = clint_base st /\
  (forall a, memory st' a =
     if (dst <=? a) && (a <? dst + n) then load8 (memory st) (src + (a - dst))
     else memory st a) /\
  (~ (src < dst < src + n) -> memmove dst src n st = memcpy dst src n st).
Proof.
  unfold memmove.
  destruct (Z.ltb_spec src dst), (Z.ltb_spec dst (src + n)); simpl andb; cbv iota.
  { destruct (memmove_back_spec (Z.to_nat n) (dst + n) (src + n) st) as (e & st' & He & Hb & Hm);
      [lia|].
    exists st', (e ++ []). split; [unfold bind, ret; rewrite He; reflexivity|].
    split; [exact Hb|]. split; [|intro Hc; exfalso; lia].
    intro a. rewrite Hm, Z2Nat.id by exact Hn.
    replace (dst + n - n) with dst by lia.
    replace (src + n - (dst + n - a)) with (src + (a - dst)) by lia. reflexivity. }
  all: assert (Hov : ~ (src < dst < src + Z.of_nat (Z.to_nat n)))
      by (rewrite Z2Nat.id by exact Hn; lia).
    all: exists (mkMachine (copy_mem (Z.to_nat n) dst src (memory st)) (clint_base st)),
      (copy_trace (Z.to_nat n) dst src (memory st) ++ []);
    (split; [unfold bind, ret; rewrite memcpy_loop_eq; reflexivity|]);
    (split; [reflexivity|]);
    (split; [|intros _; reflexivity]);
    intro a; simpl; rewrite (copy_mem_spec _ _ _ _ Hov), Z2Nat.id by exact Hn; reflexivity.
Qed.

Lemma memcmp_loop_spec (n : nat) : forall p q st, exists r e,
  memcmp_loop n p q st = Some (r, st, e) /\
  ((r = 0 /\ forall i, 0 <= i < Z.of_nat n -> load8 (memory st) (p + i) = load8 (memory st) (q + i)) \/
   (exists k, 0 <= k < Z.of_nat n /\
      (forall i, 0 <= i < k -> load8 (memory st) (p + i) = load8 (memory st) (q + i)) /\
      load8 (memory st) (p + k) <> load8 (memory st) (q + k) /\
      r = load8 (memory st) (p + k) - load8 (memory st) (q + k))).
Proof.
  induction n as [|n IH]; intros p q st.
  - exists 0, []. split; [destruct st; reflexivity|]. left. split; [reflexivity|]. intros i Hi. simpl in Hi. lia.
  - simpl memcmp_loop. unfold_M. cbn -[load8 memcmp_loop].
    destruct (Z.eqb_spec (load8 (memory st) p) (load8 (memory st) q)) as [Heq|Hne]; cbn [negb].
    + destruct (IH (p + 1) (q + 1) st) as (r & e & He & Hr). rewrite He.
      eexists _, _. split; [reflexivity|]. rewrite Zpos_P_of_succ_nat.
      destruct Hr as [[-> Hall]|(k & Hk & Hbef & Hk1 & ->)].
      * left. split; [reflexivity|]. intros i Hi.
        destruct (Z.eqb_spec i 0) as [->|Hi0]; [rewrite !Z.add_0_r; exact Heq|].
        replace (p + i) with (p + 1 + (i - 1)) by lia.
        replace (q + i) with (q + 1 + (i - 1)) by lia. apply Hall. lia.
      * right. exists (k + 1). split; [lia|]. split.
        -- intros i Hi.
           destruct (Z.eqb_spec i 0) as [->|Hi0]; [rewrite !Z.add_0_r; exact Heq|].
           replace (p + i) with (p + 1 + (i - 1)) by lia.
           replace (q + i) with (q + 1 + (i - 1)) by lia. apply Hbef. lia.
        -- replace (p + (k + 1)) with (p + 1 + k) by lia.
           replace (q + (k + 1)) with (q + 1 + k) by lia. split; [exact Hk1|reflexivity].
    + eexists _, _. split; [reflexivity|]. right. exists 0.
      rewrite Zpos_P_of_succ_nat, !Z.add_0_r. split; [lia|]. split; [intros i Hi; lia|]. split; [exact Hne|reflexivity].
Qed.

Lemma land_255 (x : Z) : Z.land x 255 = x mod 256.
Proof. exact (Z.land_ones x 8 ltac:(lia)). Qed.

Lemma load8_range (m : mem) (a : Z) : 0 <= load8 m a <= 255.
Proof.
  unfold load8. rewrite land_255. pose proof (Z.mod_pos_bound (m a) 256 ltac:(lia)). lia.
Qed.

(** X3 (memcmp): memcmp changes nothing and returns a value in
    [-255, 255]; it is 0 exactly when the [n] byte pairs are equal, and
    otherwise it is the difference of the bytes of the first pair that
    differs. *)
Theorem memcmp_first_difference (v1 v2 n : Z) (st : machine) :
  exists r e, memcmp v1 v2 n st = Some (r, st, e) /\ -255 <= r <= 255 /\
  (r = 0 <-> forall i, 0 <= i < n -> load8 (memory st) (v1 + i) = load8 (memory st) (v2 + i)) /\
  (r <> 0 -> exists k, 0 <= k < n /\
     (forall i, 0 <= i < k -> load8 (memory st) (v1 + i) = load8 (memory st) (v2 + i)) /\
     r = load8 (memory st) (v1 + k) - load8 (memory st) (v2 + k)).
Proof.
  unfold memcmp. destruct (memcmp_loop_spec (Z.to_nat n) v1 v2 st) as (r & e & He & Hr).
  exists r, e. split; [exact He|].
  assert (Hn : forall i, 0 <= i < Z.of_nat (Z.to_nat n) -> 0 <= i < n) by lia.
  destruct Hr as [[-> Hall]|(k & Hk & Hbef & Hk1 & ->)].
  - split; [lia|]. split; [|intro C; lia]. split; [intros _ i Hi|reflexivity].
    apply Hall. destruct (Z.le_gt_cases 0 n); lia.
  - pose proof (load8_range (memory st) (v1 + k)). pose proof (load8_range (memory st) (v2 + k)).
    split; [lia|]. split.
    + split; [lia|]. intro Hall. exfalso. apply Hk1. apply Hall. lia.
    + intros _. exists k. split; [lia|]. split; [exact Hbef|reflexivity].
Qed.

Lemma memcmp_loop_swap (n : nat) : forall p q st,
  result (memcmp_loop n q p) st = option_map Z.opp (result (memcmp_loop n p q) st).
Proof.
  induction n as [|n IH]; intros p q st.
  - reflexivity.
  - unfold result in *. simpl memcmp_loop. unfold_M. cbn -[load8 memcmp_loop].
    rewrite (Z.eqb_sym (load8 (memory st) q)).
    destruct (Z.eqb_spec (load8 (memory st) p) (load8 (memory st) q)); cbn [negb].
    + specialize (IH (p + 1) (q + 1) st).
      destruct (memcmp_loop n (q + 1) (p + 1) st) as [[[x s1] e1]|],
               (memcmp_loop n (p + 1) (q + 1) st) as [[[y s2] e2]|]; simpl in *;
        try discriminate; try reflexivity. exact IH.
    + simpl. f_equal. lia.
Qed.

(** X4 (memcmp): exchanging the two operands negates the result. *)
Theorem memcmp_antisymmetric (v1 v2 n : Z) (st : machine) :
  result (memcmp v2 v1 n) st = option_map Z.opp (result (memcmp v1 v2 n) st).
Proof. unfold memcmp. apply memcmp_loop_swap. Qed.

(** X5 (memcpy, memcmp): after memcpy of [n >= 0] bytes between ranges
    that do not overlap, memcmp of the destination with the source
    returns 0. *)
Theorem memcpy_then_memcmp (dst src n : Z) (st : machine) (Hn : 0 <= n)
  (Hdisj : dst + n <= src \/ src + n <= dst) :
  exists st' e, memcpy dst src n st = Some (dst, st', e) /\
  result (memcmp dst src n) st' = Some 0.
Proof.
  rewrite memcpy_eq. eexists _, _. split; [reflexivity|].
  unfold memcmp, result.
  set (st' := mkMachine (copy_mem (Z.to_nat n) dst src (memory st)) (clint_base st)).
  destruct (memcmp_loop_spec (Z.to_nat n) dst src st') as (r & e & He & Hr). rewrite He.
  assert (Hov : ~ (src < dst < src + Z.of_nat (Z.to_nat n))) by (rewrite Z2Nat.id by exact Hn; lia).
  assert (Hcp : forall i, 0 <= i < n ->
      load8 (memory st') (dst + i) = load8 (memory st') (src + i)).
  { intros i Hi. unfold st', load8 at 1 2. cbn [memory].
    rewrite !(copy_mem_spec _ _ _ _ Hov), !Z2Nat.id by exact Hn. zcmp.
    all: replace (src + (dst + i - dst)) with (src + i) by lia; rewrite load8_land; reflexivity. }
  destruct Hr as [[-> _]|(k & Hk & _ & Hk1 & _)]; [reflexivity|].
  exfalso. apply Hk1. apply Hcp. lia.
Qed.

Lemma uart_puts_loop_c_string (msg : list Z) : forall fuel p st,
  c_string (memory st) p msg -> (List.length msg < fuel)%nat ->
  exists e, uart_puts_loop fuel p st = Some (tt, st, e) /\ printed e = msg.
Proof.
  induction msg as [|c rest IH]; intros fuel p st Hs Hf;
    (destruct fuel as [|fuel]; [simpl in Hf; lia|]); simpl in Hs.
  - exists ([EvLoad 1 p 0] ++ []). split; [|reflexivity].
    simpl uart_puts_loop. unfold_M. cbn -[load8]. rewrite Hs. reflexivity.
  - destruct Hs as (Hc & Hnz & Hs).
    destruct (IH fuel (p + 1) st Hs) as (e & He & Hp); [simpl in Hf; lia|].
    exists ([EvLoad 1 p c] ++ [EvPutc c] ++ e). split.
    + simpl uart_puts_loop. unfold_M. cbn -[load8 uart_puts_loop]. rewrite Hc.
      rewrite (proj2 (Z.eqb_neq c 0) Hnz), He. rewrite <- Hc, load8_land. reflexivity.
    + simpl. now rewrite Hp.
Qed.

Lemma uart_puts_loop_state (fuel : nat) : forall p st u st' e,
  uart_puts_loop fuel p st = Some (u, st', e) -> st' = st.
Proof.
  induction fuel as [|fuel IH]; intros p st u st' e H; [discriminate|].
  revert H. simpl uart_puts_loop. unfold_M. cbn -[load8 uart_puts_loop].
  destruct (Z.eqb (load8 (memory st) p) 0).
  - intro H. inversion H; reflexivity.
  - destruct (uart_puts_loop fuel (p + 1) st) as [[[x s1] e1]|] eqn:E; [|discriminate].
    intro H. inversion H; subst. exact (IH _ _ _ _ _ E).
Qed.

(** X7 (uart_puts): on a NUL-terminated string [msg] at [p], uart_puts
    prints exactly the characters of [msg], without the NUL, and changes
    nothing in memory. *)
Theorem uart_puts_prints_string (fuel : nat) (p : Z) (msg : list Z) (st : machine)
  (Hs : c_string (memory st) p msg) (Hf : (List.length msg < fuel)%nat) :
  exists e, uart_puts_loop fuel p st = Some (tt, st, e) /\ printed e = msg.
Proof. exact (uart_puts_loop_c_string msg fuel p st Hs Hf). Qed.

(** X6 (strlen): on a NUL-terminated string [msg] at [p] (and enough
    fuel), strlen returns the length of [msg] and changes nothing. *)
Theorem strlen_counts (fuel : nat) (p : Z) (msg : list Z) (st : machine)
  (Hs : c_string (memory st) p msg) (Hf : (List.length msg < fuel)%nat) :
  exists e, strlen fuel p st = Some (Z.of_nat (List.length msg), st, e).
Proof. exact (strlen_loop_c_string msg fuel p 0 st Hs Hf). Qed.

Lemma hex_digit_char (c : Z) : 0 <= c < 16 ->
  let ch := if Z.ltb c 10 then 48 + c else 97 + c - 10 in
  Z.land ch 255 = ch /\ is_hex_digit ch = true /\ hex_digit_value ch = c.
Proof.
  intros Hc ch. subst ch. unfold is_hex_digit, hex_digit_value.
  destruct (Z.ltb_spec c 10); rewrite land_255, Z.mod_small by lia; split; auto; zcmp; auto.
Qed.

Lemma put_hex_loop_spec (k : nat) : forall hex st, exists e ds,
  put_hex_loop hex k st = Some (tt, st, e) /\ printed e = ds /\ List.length ds = k /\
  forallb is_hex_digit ds = true /\ hex_value ds = hex mod 2 ^ (4 * Z.of_nat k).
Proof.
  induction k as [|i IH]; intros hex st.
  - exists [], []. split; [reflexivity|]. split; [reflexivity|]. split; [reflexivity|].
    split; [reflexivity|]. simpl. rewrite Z.mod_1_r. reflexivity.
  - destruct (IH hex st) as (e & ds & He & Hp & Hl & Hd & Hv).
    set (c := Z.land (Z.shiftr hex (Z.of_nat i * 4)) 15).
    assert (Hc : c = (hex / 2 ^ (4 * Z.of_nat i)) mod 16).
    { subst c. change 15 with (Z.ones 4). rewrite Z.land_ones, Z.shiftr_div_pow2 by lia.
      rewrite Z.mul_comm. reflexivity. }
    assert (Hr : 0 <= c < 16) by (rewrite Hc; apply Z.mod_pos_bound; lia).
    destruct (hex_digit_char c Hr) as (H1 & H2 & H3).
    set (ch := if Z.ltb c 10 then 48 + c else 97 + c - 10) in *.
    exists (EvPutc ch :: e), (ch :: ds). split.
    + change (put_hex_loop hex (S i)) with (uart_putc ch ;; put_hex_loop hex i).
      unfold uart_putc, emit, bind. rewrite He, H1. reflexivity.
    + split; [simpl; now rewrite Hp|]. split; [simpl; now rewrite Hl|].
      split; [simpl; now rewrite H2, Hd|].
      simpl hex_value. rewrite H3, Hv, Hl.
      replace (4 * Z.of_nat (S i)) with (4 * Z.of_nat i + 4) by lia.
      rewrite Z.pow_add_r, Z.rem_mul_r by lia.
      replace (16 ^ Z.of_nat i) with (2 ^ (4 * Z.of_nat i)) by (rewrite Z.pow_mul_r by lia; reflexivity).
      rewrite Hc. change (2 ^ 4) with 16. ring.
Qed.

(** X8 (uart_put_hex): uart_put_hex prints "0x" followed by exactly 8
    lowercase hexadecimal digits, most significant first, whose value is the
    argument taken as a [uint32_t]. *)
Theorem uart_put_hex_round_trip (hex : Z) (st : machine) :
  exists e ds, uart_put_hex_chars hex st = Some (tt, st, e) /\
  printed e = 48 :: 120 :: ds /\ List.length ds = 8%nat /\
  forallb is_hex_digit ds = true /\ hex_value ds = hex mod 2 ^ 32.
Proof.
  destruct (put_hex_loop_spec 8 (Z.land hex 4294967295) st) as (e & ds & He & Hp & Hl & Hd & Hv).
  exists (EvPutc 48 :: EvPutc 120 :: e), ds. split.
  - unfold uart_put_hex_chars. unfold_M. rewrite He. reflexivity.
  - split; [simpl; now rewrite Hp|]. split; [exact Hl|]. split; [exact Hd|].
    rewrite Hv. change 4294967295 with (Z.ones 32). rewrite Z.land_ones by lia.
    change (4 * Z.of_nat 8) with 32. apply Z.mod_mod. lia.
Qed.

(** X9 (uart_min_clk_divisor): for 32-bit [in_freq] and a non-zero 32-bit
    [max_target_hz], the result [d] is the smallest divisor with
    [in_freq <= max_target_hz * (d + 1)]: either [d = 0] or
    [max_target_hz * d < in_freq]; the 64-bit sum does not wrap. *)
Theorem uart_min_clk_divisor_least (in_freq max_target_hz : Z)
  (Hin : 0 <= in_freq < 2 ^ 32) (Hhz : 0 < max_target_hz < 2 ^ 32) :
  let d := uart_min_clk_divisor in_freq max_target_hz in
  0 <= d < 2 ^ 32 /\ in_freq <= max_target_hz * (d + 1) /\
  (d = 0 \/ max_target_hz * d < in_freq).
Proof.
  intro d. subst d. unfold uart_min_clk_divisor.
  rewrite (Z.mod_small (in_freq + max_target_hz - 1)) by lia.
  set (q := (in_freq + max_target_hz - 1) / max_target_hz).
  pose proof (Z.div_mod (in_freq + max_target_hz - 1) max_target_hz ltac:(lia)) as Hd.
  pose proof (Z.mod_pos_bound (in_freq + max_target_hz - 1) max_target_hz ltac:(lia)) as Hm.
  fold q in Hd.
  set (r := (in_freq + max_target_hz - 1) mod max_target_hz) in *.
  assert (Hq0 : 0 <= q) by (apply Z.div_pos; lia).
  assert (Hq1 : q <= in_freq \/ in_freq = 0) by nia.
  destruct (Z.eqb_spec q 0) as [Hq|Hq].
  - rewrite Hq in Hd. split; [lia|]. split; [nia|]. left; reflexivity.
  - rewrite Z.mod_small by lia. split; [lia|]. split; [nia|]. right. nia.
Qed.

Lemma uart_getc_of_range (reg : Z) :
  uart_getc_of reg = -1 /\ Z.land reg UART_RXDATA_EMPTY <> 0 \/
  uart_getc_of reg = Z.land reg 255 /\ Z.land reg UART_RXDATA_EMPTY = 0 /\
  0 <= uart_getc_of reg <= 255.
Proof.
  unfold uart_getc_of, UART_RXDATA_MASK.
  destruct (Z.eqb_spec (Z.land reg UART_RXDATA_EMPTY) 0).
  - right. rewrite land_255. pose proof (Z.mod_pos_bound reg 256 ltac:(lia)). lia.
  - left. split; [reflexivity|assumption].
Qed.

(** X11 (getchar, uart_getc): getchar returns [c] and leaves [rest] unread
    exactly when the RXDATA reads are a run of values with the empty flag
    set, then a value [r] with the flag clear and [c = r & 0xff]; it never
    returns -1. *)
Theorem getchar_first_byte (rx : list Z) (c : Z) (rest : list Z) :
  getchar rx = Some (c, rest) <->
  exists empty r, rx = empty ++ r :: rest /\
    Forall (fun x => Z.land x UART_RXDATA_EMPTY <> 0) empty /\
    Z.land r UART_RXDATA_EMPTY = 0 /\ c = Z.land r 255.
Proof.
  split.
  - induction rx as [|x rx IH]; intro H; [discriminate|]. simpl in H.
    destruct (uart_getc_of_range x) as [[E Hx]|(E & Hx & Hr)]; rewrite E in H.
    + destruct (IH H) as (empty & r & -> & Hf & Hr & Hc).
      exists (x :: empty), r. split; [reflexivity|]. split; [constructor; assumption|]. now split.
    + rewrite (proj2 (Z.eqb_neq _ (-1))) in H by lia. inversion H; subst.
      exists [], x. split; [reflexivity|]. split; [constructor|]. split; [exact Hx|reflexivity].
  - intros (empty & r & -> & Hf & Hr & ->). induction Hf as [|x empty Hx Hf IH]; simpl.
    + unfold uart_getc_of. rewrite Hr. simpl. unfold UART_RXDATA_MASK.
      rewrite land_255. pose proof (Z.mod_pos_bound r 256 ltac:(lia)).
      rewrite (proj2 (Z.eqb_neq _ (-1))) by lia. reflexivity.
    + unfold uart_getc_of at 1. rewrite (proj2 (Z.eqb_neq _ 0) Hx). simpl. exact IH.
Qed.

Lemma bind_inv {A B} (c : M A) (f : A -> M B) (s s2 : machine) (y : B) (e : list event) :
  bind c f s = Some (y, s2, e) ->
  exists x s1 e1 e2, c s = Some (x, s1, e1) /\ f x s1 = Some (y, s2, e2) /\ e = e1 ++ e2.
Proof.
  unfold bind. destruct (c s) as [[[x s1] e1]|]; [|discriminate].
  destruct (f x s1) as [[[y' s2'] e2]|] eqn:E; [|discriminate].
  intro H. inversion H; subst. exists x, s1, e1, e2. auto.
Qed.

Ltac inv_bind H Hc :=
  apply bind_inv in H; destruct H as (? & ? & ? & ? & Hc & H & ?).

Lemma getchar_range (rx : list Z) (c : Z) (rx' : list Z) :
  getchar rx = Some (c, rx') -> 0 <= c <= 255.
Proof.
  induction rx as [|x rx IH]; intro H; [discriminate|]. simpl in H.
  destruct (uart_getc_of_range x) as [[E _]|(E & _ & Hr)]; rewrite E in H.
  - exact (IH H).
  - rewrite (proj2 (Z.eqb_neq _ (-1))) in H by lia. inversion H; subst. rewrite <- E. exact Hr.
Qed.

Lemma store8_byte (m : mem) (a c : Z) : 0 <= c <= 255 -> load8 (store8 m a c) a = c.
Proof. intro H. rewrite load8_store8_same, land_255. apply Z.mod_small. lia. Qed.

Lemma readline_loop_inv (fuel : nat) : forall bufp rx i st r rx' st' e,
  0 <= i <= BUFSIZE - 1 ->
  (forall j, 0 <= j < i -> 32 <= load8 (memory st) (bufp + j)) ->
  readline_loop fuel bufp rx i st = Some ((r, rx'), st', e) ->
  r = Some bufp /\ clint_base st' = clint_base st /\
  (forall a, ~ (bufp <= a < bufp + BUFSIZE) -> memory st' a = memory st a) /\
  exists len, 0 <= len <= BUFSIZE - 1 /\ load8 (memory st') (bufp + len) = 0 /\
    forall j, 0 <= j < len -> 32 <= load8 (memory st') (bufp + j).
Proof.
  induction fuel as [|f IH]; intros bufp rx i st r rx' st' e Hi Hbuf H; [discriminate|].
  simpl readline_loop in H.
  destruct (getchar rx) as [[c rx1]|] eqn:G; [|discriminate].
  pose proof (getchar_range _ _ _ G) as Hc.
  destruct (Z.ltb_spec c 0); [lia|].
  unfold BUFSIZE in *. cbn [Z.sub Z.add Z.opp Z.pos_sub] in H.
  destruct (Z.leb_spec 32 c), (Z.ltb_spec i 1023); simpl andb in H; cbv iota in H.
  - inv_bind H Hs. unfold uart_putc, emit in Hs. inversion Hs; subst. clear Hs.
    inv_bind H Hs. unfold plain_store8, raw_writeb in Hs. inversion Hs; subst. clear Hs.
    apply IH in H; [|lia|].
    2:{ intros j Hj. simpl. destruct (Z.eqb_spec j i) as [->|Hne].
        - rewrite store8_byte by lia. lia.
        - rewrite load8_store8_other by lia. apply Hbuf. lia. }
    destruct H as (Hr & Hb & Hout & Hline).
    split; [exact Hr|]. split; [exact Hb|]. split; [|exact Hline].
    intros a Ha. rewrite Hout by exact Ha. simpl. unfold store8. apply upd_other. lia.
  - destruct (Z.eqb_spec c 8); [lia|]. simpl andb in H.
    destruct (Z.eqb_spec c 10), (Z.eqb_spec c 13); try lia; simpl orb in H; cbv iota in H.
    exact (IH _ _ _ _ _ _ _ _ Hi Hbuf H).
  - destruct (Z.eqb_spec c 8), (Z.ltb_spec 0 i); simpl andb in H; cbv iota in H.
    { inv_bind H Hs. unfold uart_putc, emit in Hs. inversion Hs; subst. clear Hs.
      apply IH in H; [exact H|lia|intros j Hj; apply Hbuf; lia]. }
    all: destruct (Z.eqb c 10 || Z.eqb c 13); cbv iota in H.
      all: try exact (IH _ _ _ _ _ _ _ _ Hi Hbuf H).
      all: inv_bind H Hs; unfold uart_putc, emit in Hs; inversion Hs; subst; clear Hs;
           inv_bind H Hs; unfold plain_store8, raw_writeb in Hs; inversion Hs; subst; clear Hs;
           unfold ret in H; inversion H; subst; clear H.
      all: split; [reflexivity|]; split; [reflexivity|]; split.
      all: try (intros a Ha; simpl; unfold store8; apply upd_other; lia).
      all: exists i; split; [exact Hi|]; split; [simpl; apply store8_byte; lia|].
      all: intros j Hj; simpl; rewrite load8_store8_other by lia; apply Hbuf; lia.
  - destruct (Z.eqb_spec c 8), (Z.ltb_spec 0 i); simpl andb in H; cbv iota in H.
    { inv_bind H Hs. unfold uart_putc, emit in Hs. inversion Hs; subst. clear Hs.
      apply IH in H; [exact H|lia|intros j Hj; apply Hbuf; lia]. }
    all: destruct (Z.eqb c 10 || Z.eqb c 13); cbv iota in H.
      all: try exact (IH _ _ _ _ _ _ _ _ Hi Hbuf H).
      all: inv_bind H Hs; unfold uart_putc, emit in Hs; inversion Hs; subst; clear Hs;
           inv_bind H Hs; unfold plain_store8, raw_writeb in Hs; inversion Hs; subst; clear Hs;
           unfold ret in H; inversion H; subst; clear H.
      all: split; [reflexivity|]; split; [reflexivity|]; split.
      all: try (intros a Ha; simpl; unfold store8; apply upd_other; lia).
      all: exists i; split; [exact Hi|]; split; [simpl; apply store8_byte; lia|].
      all: intros j Hj; simpl; rewrite load8_store8_other by lia; apply Hbuf; lia.
Qed.

Lemma c_string_of_bytes (len : nat) : forall m p,
  load8 m (p + Z.of_nat len) = 0 ->
  (forall j, 0 <= j < Z.of_nat len -> 32 <= load8 m (p + j)) ->
  exists msg, List.length msg = len /\ c_string m p msg /\ Forall (fun c => 32 <= c <= 255) msg.
Proof.
  induction len as [|len IH]; intros m p Hz Hb.
  - exists []. simpl in *. rewrite Z.add_0_r in Hz. auto.
  - destruct (IH m (p + 1)) as (msg & Hl & Hs & Hf).
    + rewrite <- Z.add_assoc. rewrite Nat2Z.inj_succ in Hz. rewrite <- Hz. f_equal. lia.
    + intros j Hj. rewrite <- Z.add_assoc. apply Hb. lia.
    + exists (load8 m p :: msg). pose proof (Hb 0 ltac:(lia)) as H0. rewrite Z.add_0_r in H0.
      pose proof (load8_range m p).
      split; [simpl; now rewrite Hl|]. split; [simpl; split; [reflexivity|split; [lia|exact Hs]]|].
      constructor; [lia|exact Hf].
Qed.

Lemma readline_state (fuel : nat) (bufp : Z) (prompt : option Z) (rx : list Z)
  (st : machine) (r : option Z) (rx' : list Z) (st' : machine) (e : list event) :
  readline fuel bufp prompt rx st = Some ((r, rx'), st', e) ->
  r = Some bufp /\ clint_base st' = clint_base st /\
  (forall a, ~ (bufp <= a < bufp + BUFSIZE) -> memory st' a = memory st a) /\
  exists len, 0 <= len <= BUFSIZE - 1 /\ load8 (memory st') (bufp + len) = 0 /\
    forall j, 0 <= j < len -> 32 <= load8 (memory st') (bufp + j).
Proof.
  intro H. unfold readline in H. inv_bind H Hs.
  assert (x0 = st) as ->.
  { destruct prompt as [p|].
    - exact (uart_puts_loop_state _ _ _ _ _ _ Hs).
    - inversion Hs; reflexivity. }
  apply readline_loop_inv in H; [exact H|unfold BUFSIZE; lia|intros j Hj; lia].
Qed.

(** X12 (readline): whenever readline returns, it returns the buffer,
    never NULL. *)
Theorem readline_never_null (fuel : nat) (bufp : Z) (prompt : option Z) (rx : list Z)
  (st : machine) (r : option Z) (rx' : list Z) (st' : machine) (e : list event)
  (H : readline fuel bufp prompt rx st = Some ((r, rx'), st', e)) :
  r = Some bufp.
Proof. exact (proj1 (readline_state _ _ _ _ _ _ _ _ _ H)). Qed.

(** X13 (readline): readline writes no byte outside its buffer of BUFSIZE
    bytes, and the buffer it returns holds a NUL-terminated string of at
    most BUFSIZE - 1 bytes, all of them printable (at least ' '). *)
Theorem readline_line_in_buffer (fuel : nat) (bufp : Z) (prompt : option Z) (rx : list Z)
  (st : machine) (r : option Z) (rx' : list Z) (st' : machine) (e : list event)
  (H : readline fuel bufp prompt rx st = Some ((r, rx'), st', e)) :
  clint_base st' = clint_base st /\
  (forall a, ~ (bufp <= a < bufp + BUFSIZE) -> memory st' a = memory st a) /\
  exists msg, (List.length msg <= 1023)%nat /\ c_string (memory st') bufp msg /\
    Forall (fun c => 32 <= c <= 255) msg.
Proof.
  destruct (readline_state _ _ _ _ _ _ _ _ _ H) as (_ & Hb & Hout & len & Hlen & Hz & Hj).
  split; [exact Hb|]. split; [exact Hout|].
  destruct (c_string_of_bytes (Z.to_nat len) (memory st') bufp) as (msg & Hl & Hs & Hf).
  - rewrite Z2Nat.id by lia. exact Hz.
  - intros j Hj'. apply Hj. lia.
  - exists msg. split; [|split; assumption]. rewrite Hl. unfold BUFSIZE in Hlen. lia.
Qed.

Lemma c_string_of_list (pre : list Z) : forall m p,
  (forall j, (j < List.length pre)%nat -> load8 m (p + Z.of_nat j) = nth j pre 0) ->
  Forall (fun c => 32 <= c <= 255) pre ->
  load8 m (p + Z.of_nat (List.length pre)) = 0 -> c_string m p pre.
Proof.
  induction pre as [|c pre IH]; intros m p Hb Hp Hz; simpl in *.
  - rewrite Z.add_0_r in Hz. exact Hz.
  - inversion Hp; subst. split; [|split; [lia|]].
    + pose proof (Hb 0%nat ltac:(lia)) as H0. rewrite Z.add_0_r in H0. exact H0.
    + apply IH; [|assumption|].
      * intros j Hj. rewrite <- Z.add_assoc. rewrite <- (Hb (S j)) by lia. f_equal. lia.
      * rewrite <- Z.add_assoc. rewrite <- Hz. f_equal. lia.
Qed.

Lemma land_empty_byte (c : Z) : 0 <= c <= 255 -> Z.land c UART_RXDATA_EMPTY = 0.
Proof.
  intro Hc. apply Z.bits_inj'. intros n Hn. rewrite Z.land_spec, Z.bits_0.
  unfold UART_RXDATA_EMPTY. change 2147483648 with (2 ^ 31). rewrite Z.pow2_bits_eqb by lia.
  destruct (Z.eqb_spec 31 n) as [<-|]; [|apply andb_false_r].
  destruct (Z.eq_dec c 0) as [->|Hnz]; [reflexivity|].
  rewrite Z.bits_above_log2; [reflexivity|lia|].
  apply (proj1 (Z.log2_lt_pow2 c 31 ltac:(lia))). lia.
Qed.

Lemma getchar_byte (c : Z) (rest : list Z) : 0 <= c <= 255 ->
  getchar (c :: rest) = Some (c, rest).
Proof.
  intro Hc. simpl. unfold uart_getc_of. rewrite land_empty_byte by exact Hc.
  simpl. unfold UART_RXDATA_MASK. rewrite land_255, Z.mod_small by lia.
  rewrite (proj2 (Z.eqb_neq c (-1))) by lia. reflexivity.
Qed.

Lemma readline_loop_line (bufp : Z) (rest : list Z) (msg : list Z) : forall fuel pre st,
  Forall (fun c => 32 <= c <= 255) msg -> (List.length msg < fuel)%nat ->
  (List.length pre <= 1023)%nat ->
  (forall j, (j < List.length pre)%nat -> load8 (memory st) (bufp + Z.of_nat j) = nth j pre 0) ->
  Forall (fun c => 32 <= c <= 255) pre ->
  exists st' e,
    readline_loop fuel bufp (msg ++ 10 :: rest) (Z.of_nat (List.length pre)) st =
      Some ((Some bufp, rest), st', e) /\
    c_string (memory st') bufp (firstn 1023 (pre ++ msg)) /\
    printed e = firstn (1023 - List.length pre) msg ++ [10].
Proof.
  induction msg as [|c msg IH]; intros fuel pre st Hm Hf Hl Hb Hp;
    (destruct fuel as [|fuel]; [simpl in Hf; lia|]).
  - simpl app. cbn [readline_loop]. rewrite getchar_byte by lia. cbn [Z.ltb Z.leb Z.eqb andb orb Z.compare].
    change (BUFSIZE - 1) with 1023.
    eexists _, _. split.
    + unfold uart_putc, plain_store8, raw_writeb, emit, bind, ret. reflexivity.
    + rewrite app_nil_r, firstn_all2 by lia. split; [|rewrite firstn_nil; reflexivity].
      apply c_string_of_list; [|exact Hp|].
      * intros j Hj. cbn [memory set_memory]. rewrite load8_store8_other by lia. apply Hb. exact Hj.
      * cbn [memory set_memory]. rewrite load8_store8_same. reflexivity.
  - inversion Hm; subst. change ((c :: msg) ++ 10 :: rest) with (c :: (msg ++ 10 :: rest)). cbn [readline_loop]. rewrite getchar_byte by lia.
    destruct (Z.ltb_spec c 0); [lia|]. destruct (Z.leb_spec 32 c); [|lia].
    change (BUFSIZE - 1) with 1023.
    destruct (Z.ltb_spec (Z.of_nat (List.length pre)) 1023); cbn [andb orb].
    + destruct (IH fuel (pre ++ [c])
        (set_memory st (store8 (memory st) (bufp + Z.of_nat (List.length pre)) c)))
        as (st' & e & He & Hs & Hpr); try assumption.
      * simpl in Hf; lia.
      * rewrite length_app. simpl. lia.
      * intros j Hj. rewrite length_app in Hj. simpl in Hj. cbn [memory set_memory].
        destruct (Nat.eq_dec j (List.length pre)) as [->|Hne].
        -- rewrite store8_byte by lia. rewrite nth_middle. reflexivity.
        -- rewrite load8_store8_other by lia. rewrite app_nth1 by lia. apply Hb. lia.
      * apply Forall_app. split; [exact Hp|constructor; [lia|constructor]].
      * rewrite length_app in He. simpl List.length in He. rewrite Nat2Z.inj_add in He. change (Z.of_nat 1) with 1 in He.
        eexists _, _. split.
        -- unfold uart_putc, emit, plain_store8, raw_writeb, bind. cbv beta iota.
           rewrite He. reflexivity.
        -- rewrite <- app_assoc in Hs. split; [exact Hs|].
           rewrite land_255, Z.mod_small by lia. cbn [printed app].
           rewrite Hpr, length_app. change (List.length [c]) with 1%nat.
           replace (1023 - List.length pre)%nat with (S (1023 - (List.length pre + 1))) by lia.
           reflexivity.
    + destruct (Z.eqb_spec c 8); [lia|]. destruct (Z.eqb_spec c 10); [lia|].
      destruct (Z.eqb_spec c 13); [lia|]. cbn [andb orb].
      destruct (IH fuel pre st) as (st' & e & He & Hs & Hpr); try assumption; [simpl in Hf; lia|].
      exists st', e. split; [exact He|].
      rewrite firstn_app in Hs |- *. replace (1023 - List.length pre)%nat with 0%nat in * by lia.
      split; [exact Hs|exact Hpr].
Qed.

(** X14 (readline): on input bytes [msg] in [' ', 255] followed by '\n',
    readline returns the buffer holding the first 1023 bytes of [msg] as a
    string, leaves the input after the '\n' unread, and echoes those bytes
    and the '\n'. *)
Theorem readline_reads_line (fuel : nat) (bufp : Z) (msg rest : list Z) (st : machine)
  (Hm : Forall (fun c => 32 <= c <= 255) msg) (Hf : (List.length msg < fuel)%nat) :
  exists st' e,
    readline fuel bufp None (msg ++ 10 :: rest) st = Some ((Some bufp, rest), st', e) /\
    c_string (memory st') bufp (firstn 1023 msg) /\
    printed e = firstn 1023 msg ++ [10].
Proof.
  destruct (readline_loop_line bufp rest msg fuel [] st Hm Hf) as (st' & e & He & Hs & Hp);
    [simpl; lia|simpl; intros; lia|constructor|].
  exists st', e. split; [|split; assumption].
  unfold readline. unfold bind at 1, ret at 1. simpl in He. rewrite He. reflexivity.
Qed.

Lemma to_hartid_of_byte (c : Z) : 0 <= c <= 255 ->
  (48 <= c -> to_hartid_of c = c - 48) /\ (c < 48 -> to_hartid_of c = c - 48 + 2 ^ 64).
Proof.
  intro Hc. unfold to_hartid_of. split; intro H.
  - apply Z.mod_small. lia.
  - rewrite <- (Z.mod_add (c - 48) 1 (2 ^ 64)) by lia. apply Z.mod_small. lia.
Qed.

(** X15 (test_ipi): the id [readline(NULL)[0] - '0'] (a [size_t]) passes
    the range test of test_ipi exactly when the first byte of the line is
    '1' ... '4'; an empty line (first byte NUL) wraps around and is
    refused. *)
Theorem to_hartid_accepts (c : Z) (Hc : 0 <= c <= 255) :
  Z.leb (ZERO_HART + 1) (to_hartid_of c) && Z.leb (to_hartid_of c) (MAX_HARTS - 1) = true <->
  49 <= c <= 52.
Proof.
  destruct (to_hartid_of_byte c Hc) as [H1 H2]. unfold ZERO_HART, MAX_HARTS.
  rewrite andb_true_iff, !Z.leb_le.
  destruct (Z_lt_le_dec c 48) as [H|H]; [rewrite (H2 H)|rewrite (H1 H)]; lia.
Qed.

(** X16 (test_ipi): the target-selection loop of test_ipi only ends with a
    hart id in [ZERO_HART + 1, MAX_HARTS - 1], equal to the first byte of the
    line minus '0', and it writes nothing outside the line buffer. *)
Theorem select_target_in_range (fuel : nat) : forall bufp rx st to rx' st' e,
  select_target fuel bufp rx st = Some ((to, rx'), st', e) ->
  ZERO_HART + 1 <= to <= MAX_HARTS - 1 /\ load8 (memory st') bufp = to + 48 /\
  clint_base st' = clint_base st /\
  (forall a, ~ (bufp <= a < bufp + BUFSIZE) -> memory st' a = memory st a).
Proof.
  induction fuel as [|f IH]; intros bufp rx st to rx' st' e H; [discriminate|].
  simpl select_target in H.
  apply bind_inv in H. destruct H as (u & s1 & e1 & e1' & Hs & H & _).
  unfold puts, emit in Hs. injection Hs as _ <- _.
  apply bind_inv in H. destruct H as ([[p|] rx1] & s2 & e2 & e3 & Hs & H & _); [|discriminate].
  destruct (readline_state _ _ _ _ _ _ _ _ _ Hs) as (Hp & Hb & Hout & _).
  injection Hp as ->.
  apply bind_inv in H. destruct H as (c & s3 & e4 & e5 & Hl & H & _).
  unfold plain_load8, raw_readb in Hl. injection Hl as <- <- _.
  pose proof (load8_range (memory s2) bufp) as Hc.
  destruct (Z.leb 1 (to_hartid_of (load8 (memory s2) bufp)) &&
            Z.leb (to_hartid_of (load8 (memory s2) bufp)) 4) eqn:A.
  - unfold ret in H. injection H as <- _ <- _.
    pose proof (proj1 (to_hartid_accepts _ Hc) A) as Hr.
    destruct (to_hartid_of_byte _ Hc) as [Hge _]. rewrite Hge by lia.
    unfold ZERO_HART, MAX_HARTS. split; [lia|]. split; [lia|]. split; assumption.
  - apply bind_inv in H. destruct H as (u' & s4 & e6 & e7 & Hs' & H & _).
    unfold puts, emit in Hs'. injection Hs' as _ <- _.
    destruct (IH _ _ _ _ _ _ _ H) as (Hr & Hv & Hb' & Hout').
    split; [exact Hr|]. split; [exact Hv|]. split; [congruence|].
    intros a Ha. rewrite Hout', Hout by exact Ha. reflexivity.
Qed.

Lemma bytes_to_word (v : Z) :
  Z.land v 255 + Z.shiftl (Z.land (Z.shiftr v 8) 255) 8
  + Z.shiftl (Z.land (Z.shiftr v 16) 255) 16
  + Z.shiftl (Z.land (Z.shiftr v 24) 255) 24 = v mod 2 ^ 32.
Proof.
  rewrite !land_255, !Z.shiftr_div_pow2, !Z.shiftl_mul_pow2 by lia.
  change (2 ^ 8) with 256. change (2 ^ 16) with 65536. change (2 ^ 24) with 16777216.
  change (2 ^ 32) with (16777216 * 256). rewrite Z.rem_mul_r by lia.
  replace (v mod 16777216) with (v mod 65536 + 65536 * ((v / 65536) mod 256))
    by (rewrite <- Z.rem_mul_r by lia; reflexivity).
  replace (v mod 65536) with (v mod 256 + 256 * ((v / 256) mod 256))
    by (rewrite <- Z.rem_mul_r by lia; reflexivity).
  ring.
Qed.

Lemma load64_store64_same (m : mem) (a v : Z) : load64 (store64 m a v) a = v mod 2 ^ 64.
Proof.
  unfold load64, store64.
  rewrite load32_store32_other by lia. rewrite !load32_store32_bytes, !bytes_to_word.
  rewrite Z.shiftr_div_pow2, Z.shiftl_mul_pow2 by lia.
  change (2 ^ 64) with (2 ^ 32 * 2 ^ 32). rewrite Z.rem_mul_r by lia. ring.
Qed.

Lemma load32_store64_other (m : mem) (a b v : Z) :
  (a + 8 <= b \/ b + 4 <= a) -> load32 (store64 m a v) b = load32 m b.
Proof. intro H. unfold store64. rewrite !load32_store32_other by lia. reflexivity. Qed.

Lemma load64_store64_other (m : mem) (a b v : Z) :
  (a + 8 <= b \/ b + 8 <= a) -> load64 (store64 m a v) b = load64 m b.
Proof.
  intro H. unfold load64. rewrite !load32_store64_other by lia. reflexivity.
Qed.

(** X17 (clint_set_timecmp): for [0 <= hartid < 4095], clint_set_timecmp
    does one fenced 64-bit store of [time] at the hart's mtimecmp; reading it
    back gives [time] mod 2^64, and the other harts' mtimecmp, the msip words
    of harts 0 ... 4095 and mtime are unchanged. *)
Theorem clint_set_timecmp_spec (s : machine) (hartid time : Z) (Hh : 0 <= hartid < 4095) :
  let a := clint_base s + hartid * CLINT_MTIMECMP_SIZE + CLINT_MTIMECMP_OFFSET in
  exists s', clint_set_timecmp hartid time s =
    Some (tt, s', [EvFence [AccW] [AccO]; EvStore 8 a time]) /\
  clint_base s' = clint_base s /\
  load64 (memory s') a = time mod 2 ^ 64 /\
  (forall g, g <> hartid ->
     load64 (memory s') (clint_base s + g * CLINT_MTIMECMP_SIZE + CLINT_MTIMECMP_OFFSET) =
     load64 (memory s) (clint_base s + g * CLINT_MTIMECMP_SIZE + CLINT_MTIMECMP_OFFSET)) /\
  (forall g, 0 <= g < 4096 -> result (is_pending g) s' = result (is_pending g) s) /\
  result clint_get_mtime s' = result clint_get_mtime s.
Proof.
  intro a. exists (set_memory s (store64 (memory s) a time)). split; [reflexivity|].
  split; [reflexivity|]. cbn [set_memory memory clint_base].
  unfold a, CLINT_MTIMECMP_SIZE, CLINT_MTIMECMP_OFFSET in *.
  split; [apply load64_store64_same|]. split.
  - intros g Hg. apply load64_store64_other. lia.
  - split.
    + intros g Hg. rewrite !is_pending_eq. cbn [set_memory memory clint_base].
      unfold CLINT_SOFT, CLINT_MSIP_SIZE, CLINT_MSIP_OFFSET.
      rewrite load32_store64_other by lia. reflexivity.
    + unfold result, clint_get_mtime, readd, raw_readd, io_br, io_ar, get_clint_base, bind, ret, emit.
      cbn [set_memory memory clint_base]. unfold CLINT_MTIME_OFFSET.
      rewrite load64_store64_other by lia. reflexivity.
Qed.

Lemma land_mie_clear (m : Z) : Z.land (Z.land m (Z.lnot MSTATUS_MIE)) MSTATUS_MIE = 0.
Proof.
  rewrite <- Z.land_assoc, (Z.land_comm (Z.lnot MSTATUS_MIE)), Z.land_lnot_diag.
  apply Z.land_0_r.
Qed.

Lemma lor_mie_restore (m : Z) : Z.land m MSTATUS_MIE <> 0 ->
  Z.lor (Z.land m (Z.lnot MSTATUS_MIE)) MSTATUS_MIE = m.
Proof.
  intro H. unfold MSTATUS_MIE in *. change 8 with (2 ^ 3) in *.
  assert (H3 : Z.testbit m 3 = true).
  { destruct (Z.testbit m 3) eqn:E; [reflexivity|]. exfalso. apply H.
    apply Z.bits_inj'. intros n Hn. rewrite Z.land_spec, Z.pow2_bits_eqb, Z.bits_0 by lia.
    destruct (Z.eqb_spec 3 n) as [<-|]; [rewrite E; reflexivity|apply andb_false_r]. }
  apply Z.bits_inj'. intros n Hn.
  rewrite Z.lor_spec, Z.land_spec, Z.lnot_spec, Z.pow2_bits_eqb by lia.
  destruct (Z.eqb_spec 3 n) as [<-|]; [rewrite H3; reflexivity|].
  rewrite orb_false_r. simpl negb. apply andb_true_r.
Qed.

(** X18 (__intr_save, __intr_restore): __intr_save returns 1 exactly when
    MIE was set and leaves MIE clear; __intr_restore with that flag gives back
    the original mstatus; a nested save returns 0, changes nothing, and its
    restore does not set MIE. *)
Theorem intr_save_restore (mstatus : Z) :
  let (flag, m1) := intr_save mstatus in
  (flag = 1 <-> Z.land mstatus MSTATUS_MIE <> 0) /\
  Z.land m1 MSTATUS_MIE = 0 /\
  intr_restore flag m1 = mstatus /\
  (let (flag2, m2) := intr_save m1 in flag2 = 0 /\ m2 = m1 /\ intr_restore flag2 m2 = m1).
Proof.
  unfold intr_save. destruct (Z.eqb_spec (Z.land mstatus MSTATUS_MIE) 0) as [H|H]; simpl negb; cbv iota.
  - rewrite H. simpl. split; [split; [discriminate|intro C; contradiction]|]. auto.
  - rewrite land_mie_clear. simpl. split; [split; [intros _; exact H|reflexivity]|].
    split; [reflexivity|]. split; [unfold intr_restore; simpl; apply lor_mie_restore; exact H|].
    auto.
Qed.

Lemma load64_store32_other (m : mem) (a b v : Z) :
  (a + 4 <= b \/ b + 8 <= a) -> load64 (store32 m a v) b = load64 m b.
Proof. intro H. unfold load64. rewrite !load32_store32_other by lia. reflexivity. Qed.

Lemma load32_store32_same (m : mem) (a v : Z) : load32 (store32 m a v) a = v mod 2 ^ 32.
Proof. rewrite load32_store32_bytes. apply bytes_to_word. Qed.

Lemma store64_other (m : mem) (a b v : Z) : (b < a \/ a + 8 <= b) -> store64 m a v b = m b.
Proof. intro H. unfold store64. rewrite !store32_other by lia. reflexivity. Qed.

(** X10 (uart_init): uart_init first saves [base], [in_freq] and
    [baudrate] in the statics [uart_base], [uart_in_freq] and
    [uart_baudrate] with plain stores.  Then, each time reading the pointer
    back from [uart_base], it writes the divisor register only when
    [in_freq] is not 0, then IE := 0, TXCTRL := TXEN and RXCTRL := RXEN, each
    as one 32-bit store at [base + 4 * index] preceded by its fence.  The
    statics hold the three values at the end, and no other byte outside
    [base + 8, base + 28) is written, so neither TXDATA nor RXDATA.  The
    statics are taken apart from each other and from those registers. *)
Theorem uart_init_registers (sv : uart_statics) (base in_freq baudrate : Z) (st : machine)
  (Hbase : 0 <= base < 2 ^ 64) (Hfreq : 0 <= in_freq < 2 ^ 32)
  (Hbaud : 0 <= baudrate < 2 ^ 32)
  (Hbf : apart (uart_base sv) 8 (uart_in_freq sv) 4)
  (Hbb : apart (uart_base sv) 8 (uart_baudrate sv) 4)
  (Hfb : apart (uart_in_freq sv) 4 (uart_baudrate sv) 4)
  (Hrb : apart (base + 8) 20 (uart_base sv) 8)
  (Hrf : apart (base + 8) 20 (uart_in_freq sv) 4)
  (Hrd : apart (base + 8) 20 (uart_baudrate sv) 4) :
  exists st', uart_init sv base in_freq baudrate st = Some (tt, st',
    [EvStore 8 (uart_base sv) base; EvStore 4 (uart_in_freq sv) in_freq;
     EvStore 4 (uart_baudrate sv) baudrate] ++
    (if Z.eqb in_freq 0 then []
     else [EvLoad 8 (uart_base sv) base; EvFence [AccW] [AccO];
           EvStore 4 (base + 24) (uart_min_clk_divisor in_freq baudrate)]) ++
    [EvLoad 8 (uart_base sv) base; EvFence [AccW] [AccO]; EvStore 4 (base + 16) 0;
     EvLoad 8 (uart_base sv) base; EvFence [AccW] [AccO]; EvStore 4 (base + 8) 1;
     EvLoad 8 (uart_base sv) base; EvFence [AccW] [AccO]; EvStore 4 (base + 12) 1]) /\
  clint_base st' = clint_base st /\
  load64 (memory st') (uart_base sv) = base /\
  load32 (memory st') (uart_in_freq sv) = in_freq /\
  load32 (memory st') (uart_baudrate sv) = baudrate /\
  (forall a, (a < base + 8 \/ base + 28 <= a) ->
     apart a 1 (uart_base sv) 8 -> apart a 1 (uart_in_freq sv) 4 ->
     apart a 1 (uart_baudrate sv) 4 -> memory st' a = memory st a).
Proof.
  unfold apart in *. destruct sv as [ub fa bda]; cbn [uart_base uart_in_freq uart_baudrate] in *.
  unfold uart_init, uart_set_reg, UART_REG_DIV, UART_REG_IE, UART_REG_TXCTRL, UART_REG_RXCTRL,
    UART_TXCTRL_TXEN, UART_RXCTRL_RXEN, plain_load64, plain_store64, plain_store32,
    raw_readd, raw_writed.
  change (Z.shiftl 6 2) with 24. change (Z.shiftl 4 2) with 16.
  change (Z.shiftl 2 2) with 8. change (Z.shiftl 3 2) with 12.
  destruct (Z.eqb_spec in_freq 0); simpl negb; cbv iota; unfold_M;
    cbn -[store32 store64 load64 load32].
  all: repeat match goal with
         | |- context [load64 (store32 ?m ?a ?v) ?b] =>
             rewrite (load64_store32_other m a b v) by lia
         | |- context [load64 (store64 ?m ?a ?v) ?a] =>
             rewrite (load64_store64_same m a v), (Z.mod_small v) by lia
         end.
  all: eexists; split; [reflexivity|]; cbn [memory clint_base]; split; [reflexivity|].
  all: split; [rewrite !load64_store32_other by lia; rewrite load64_store64_same;
               apply Z.mod_small; lia|].
  all: split; [rewrite !load32_store32_other by lia; rewrite load32_store32_same;
               apply Z.mod_small; lia|].
  all: split; [rewrite !load32_store32_other by lia; rewrite load32_store32_same;
               apply Z.mod_small; lia|].
  all: intros a Ha Hab Haf Had; rewrite !store32_other by lia; apply store64_other; lia.
Qed.

(** ** Instances of the extra properties' hypotheses *)

Lemma uart_init_registers_witness :
  exists st', uart_init (mkUartStatics 4096 4104 4108) 268513280 33000000 115200 s_zero =
    Some (tt, st',
    [EvStore 8 4096 268513280; EvStore 4 4104 33000000; EvStore 4 4108 115200] ++
    (if Z.eqb 33000000 0 then []
     else [EvLoad 8 4096 268513280; EvFence [AccW] [AccO];
           EvStore 4 (268513280 + 24) (uart_min_clk_divisor 33000000 115200)]) ++
    [EvLoad 8 4096 268513280; EvFence [AccW] [AccO]; EvStore 4 (268513280 + 16) 0;
     EvLoad 8 4096 268513280; EvFence [AccW] [AccO]; EvStore 4 (268513280 + 8) 1;
     EvLoad 8 4096 268513280; EvFence [AccW] [AccO]; EvStore 4 (268513280 + 12) 1]) /\
  clint_base st' = clint_base s_zero /\
  load64 (memory st') 4096 = 268513280 /\
  load32 (memory st') 4104 = 33000000 /\
  load32 (memory st') 4108 = 115200 /\
  (forall a, (a < 268513280 + 8 \/ 268513280 + 28 <= a) ->
     apart a 1 4096 8 -> apart a 1 4104 4 -> apart a 1 4108 4 ->
     memory st' a = memory s_zero a).
Proof.
  apply (uart_init_registers (mkUartStatics 4096 4104 4108) 268513280 33000000 115200 s_zero);
    unfold apart; cbn; lia.
Defined.

Lemma memset_fills_witness :
  exists st' e, memset 10 7 3 s_zero = Some (10, st', e) /\
  clint_base st' = clint_base s_zero /\
  forall a, memory st' a =
    if (10 <=? a) && (a <? 10 + 3) then Z.land 7 255 else memory s_zero a.
Proof. apply (memset_fills 10 7 3 s_zero). lia. Defined.

Lemma memmove_moves_witness :
  exists st' e, memmove 11 10 2 s_two_bytes = Some (11, st', e) /\
  clint_base st' = clint_base s_two_bytes /\
  (forall a, memory st' a =
     if (11 <=? a) && (a <? 11 + 2) then load8 (memory s_two_bytes) (10 + (a - 11))
     else memory s_two_bytes a) /\
  (~ (10 < 11 < 10 + 2) -> memmove 11 10 2 s_two_bytes = memcpy 11 10 2 s_two_bytes).
Proof. apply (memmove_moves 11 10 2 s_two_bytes). lia. Defined.

Lemma memcpy_then_memcmp_witness :
  exists st' e, memcpy 20 10 2 s_two_bytes = Some (20, st', e) /\
  result (memcmp 20 10 2) st' = Some 0.
Proof. apply (memcpy_then_memcmp 20 10 2 s_two_bytes); lia. Defined.

Lemma strlen_counts_witness :
  exists e, strlen 10 100 s_hello = Some (Z.of_nat (List.length hello), s_hello, e).
Proof.
  apply (strlen_counts 10 100 hello s_hello).
  - simpl. repeat split; try reflexivity; discriminate.
  - simpl. lia.
Defined.

Lemma uart_puts_prints_string_witness :
  exists e, uart_puts_loop 10 100 s_hello = Some (tt, s_hello, e) /\ printed e = hello.
Proof.
  apply (uart_puts_prints_string 10 100 hello s_hello).
  - simpl. repeat split; try reflexivity; discriminate.
  - simpl. lia.
Defined.

Lemma uart_min_clk_divisor_least_witness :
  0 <= uart_min_clk_divisor 100 30 < 2 ^ 32 /\
  100 <= 30 * (uart_min_clk_divisor 100 30 + 1) /\
  (uart_min_clk_divisor 100 30 = 0 \/ 30 * uart_min_clk_divisor 100 30 < 100).
Proof. apply (uart_min_clk_divisor_least 100 30); lia. Defined.

Lemma readline_never_null_witness :
  exists r rx' st' e,
    readline 3 1000 None [104; 10] s_zero = Some ((r, rx'), st', e) /\ r = Some 1000.
Proof.
  destruct (readline 3 1000 None [104; 10] s_zero) as [[[[r rx'] st'] e]|] eqn:E;
    [|vm_compute in E; discriminate].
  exists r, rx', st', e. split; [reflexivity|].
  exact (readline_never_null 3 1000 None [104; 10] s_zero r rx' st' e E).
Defined.

Lemma readline_line_in_buffer_witness :
  exists r rx' st' e,
    readline 3 1000 None [104; 10] s_zero = Some ((r, rx'), st', e) /\
    clint_base st' = clint_base s_zero /\
    (forall a, ~ (1000 <= a < 1000 + BUFSIZE) -> memory st' a = memory s_zero a) /\
    exists msg, (List.length msg <= 1023)%nat /\ c_string (memory st') 1000 msg /\
      Forall (fun c => 32 <= c <= 255) msg.
Proof.
  destruct (readline 3 1000 None [104; 10] s_zero) as [[[[r rx'] st'] e]|] eqn:E;
    [|vm_compute in E; discriminate].
  exists r, rx', st', e. split; [reflexivity|].
  exact (readline_line_in_buffer 3 1000 None [104; 10] s_zero r rx' st' e E).
Defined.

Lemma readline_reads_line_witness :
  exists st' e,
    readline 3 1000 None ([104; 105] ++ 10 :: []) s_zero = Some ((Some 1000, []), st', e) /\
    c_string (memory st') 1000 (firstn 1023 [104; 105]) /\
    printed e = firstn 1023 [104; 105] ++ [10].
Proof.
  apply (readline_reads_line 3 1000 [104; 105] [] s_zero).
  - repeat constructor; lia.
  - simpl. lia.
Defined.

Lemma to_hartid_accepts_witness :
  Z.leb (ZERO_HART + 1) (to_hartid_of 51) && Z.leb (to_hartid_of 51) (MAX_HARTS - 1) = true <->
  49 <= 51 <= 52.
Proof. apply (to_hartid_accepts 51). lia. Defined.

Lemma select_target_in_range_witness :
  exists to rx' st' e,
    select_target 3 1000 [51; 10] s_zero = Some ((to, rx'), st', e) /\
    ZERO_HART + 1 <= to <= MAX_HARTS - 1 /\ load8 (memory st') 1000 = to + 48 /\
    clint_base st' = clint_base s_zero /\
    (forall a, ~ (1000 <= a < 1000 + BUFSIZE) -> memory st' a = memory s_zero a).
Proof.
  destruct (select_target 3 1000 [51; 10] s_zero) as [[[[to rx'] st'] e]|] eqn:E;
    [|vm_compute in E; discriminate].
  exists to, rx', st', e. split; [reflexivity|].
  exact (select_target_in_range 3 1000 [51; 10] s_zero to rx' st' e E).
Defined.

Lemma clint_set_timecmp_spec_witness :
  let a := clint_base s_zero + 1 * CLINT_MTIMECMP_SIZE + CLINT_MTIMECMP_OFFSET in
  exists s', clint_set_timecmp 1 5 s_zero =
    Some (tt, s', [EvFence [AccW] [AccO]; EvStore 8 a 5]) /\
  clint_base s' = clint_base s_zero /\
  load64 (memory s') a = 5 mod 2 ^ 64 /\
  (forall g, g <> 1 ->
     load64 (memory s') (clint_base s_zero + g * CLINT_MTIMECMP_SIZE + CLINT_MTIMECMP_OFFSET) =
     load64 (memory s_zero) (clint_base s_zero + g * CLINT_MTIMECMP_SIZE + CLINT_MTIMECMP_OFFSET)) /\
  (forall g, 0 <= g < 4096 -> result (is_pending g) s' = result (is_pending g) s_zero) /\
  result clint_get_mtime s' = result clint_get_mtime s_zero.
Proof. apply (clint_set_timecmp_spec s_zero 1 5). lia. Defined.

(** ** C2: no length check in send *)

(** C2 (as the code does it): test_ipi has no length check and no
    OutOfRange outcome.  Its message is the line readline(NULL) reads into
    its buffer of BUFSIZE bytes at [bufp], which keeps at most BUFSIZE - 1 =
    1023 characters of the line, whatever its length.  Whenever that
    readline returns, the send completes: the kept bytes [msg] and their NUL
    are copied to [SMP_ADDR ..], nothing is written outside the first
    BUFSIZE bytes of the mailbox apart from the target's pending word, and
    the target's bit is raised. *)
Theorem send_has_no_length_check (fuel : nat) (bufp h : Z) (rx : list Z) (st : machine)
  (r : option Z) (rx' : list Z) (st1 : machine) (e1 : list event)
  (Hb : clint_base st = CLINT_CTRL_ADDR) (Hh : 0 <= h < MAX_HARTS)
  (Hbuf : bufp + BUFSIZE <= SMP_ADDR \/ SMP_ADDR <= bufp) (Hfuel : (1023 < fuel)%nat)
  (Hr : readline fuel bufp None rx st = Some ((r, rx'), st1, e1)) :
  exists msg st2 e2,
    (List.length msg <= 1023)%nat /\ c_string (memory st1) bufp msg /\
    test_ipi_message fuel bufp h rx st = Some (rx', st2, e2) /\
    c_string (memory st2) SMP_ADDR msg /\ result (is_pending h) st2 = Some true /\
    forall a, ~ (SMP_ADDR <= a < SMP_ADDR + BUFSIZE) ->
      ~ (CLINT_SOFT CLINT_CTRL_ADDR h <= a < CLINT_SOFT CLINT_CTRL_ADDR h + 4) ->
      memory st2 a = memory st1 a.
Proof.
  destruct (readline_state _ _ _ _ _ _ _ _ _ Hr) as (Hr1 & Hb1 & _ & len & Hlen & Hz & Hj).
  subst r.
  destruct (c_string_of_bytes (Z.to_nat len) (memory st1) bufp) as (msg & Hl & Hs & _).
  { rewrite Z2Nat.id by lia. exact Hz. }
  { intros j Hj'. apply Hj. lia. }
  unfold BUFSIZE in *.
  assert (Hml : (List.length msg <= 1023)%nat) by (rewrite Hl; lia).
  assert (Hsrc : SMP_ADDR <= bufp \/ bufp + Z.of_nat (List.length msg) < SMP_ADDR) by lia.
  assert (Hb1' : clint_base st1 = CLINT_CTRL_ADDR) by congruence.
  destruct (send_delivers fuel st1 h bufp msg Hb1' Hh Hs Hsrc ltac:(lia))
    as (st2 & e2 & Hsend & _ & Hw & Hs2).
  destruct (test_ipi_send_eq fuel st1 h bufp msg Hs ltac:(lia)) as [e0 He].
  assert (Hst2 : st2 = mkMachine (store32 (copy_mem (S (List.length msg)) SMP_ADDR bufp
                                    (memory st1)) (CLINT_SOFT (clint_base st1) h) 1)
                                 (clint_base st1)).
  { rewrite Hsend in He. injection He. intros _ H. exact H. }
  exists msg, st2, ([EvPuts "Input message: "] ++ (e1 ++ (e2 ++ []))).
  split; [exact Hml|]. split; [exact Hs|]. split; [|split; [exact Hs2|split]].
  - unfold test_ipi_message. eapply bind_eq; [reflexivity|].
    eapply bind_eq; [exact Hr|]. cbv beta iota.
    eapply bind_eq; [exact Hsend|reflexivity].
  - rewrite is_pending_eq. unfold msip_word, msip_addr in Hw. rewrite Hst2 in Hw |- *.
    cbn [memory clint_base] in *. rewrite Hb1' in *. now rewrite Hw.
  - intros a Ha Hc. rewrite Hst2. cbn [memory]. rewrite Hb1'.
    rewrite store32_other by lia. rewrite copy_mem_spec by lia.
    destruct (Z.leb_spec SMP_ADDR a), (Z.ltb_spec a (SMP_ADDR + Z.of_nat (S (List.length msg))));
      cbn [andb]; try reflexivity. lia.
Qed.

Lemma send_has_no_length_check_witness :
  exists r rx' st1 e1,
    readline 1030 1000 None [97; 10] s_zero = Some ((r, rx'), st1, e1) /\
    exists msg st2 e2,
      (List.length msg <= 1023)%nat /\ c_string (memory st1) 1000 msg /\
      test_ipi_message 1030 1000 1 [97; 10] s_zero = Some (rx', st2, e2) /\
      c_string (memory st2) SMP_ADDR msg /\ result (is_pending 1) st2 = Some true /\
      forall a, ~ (SMP_ADDR <= a < SMP_ADDR + BUFSIZE) ->
        ~ (CLINT_SOFT CLINT_CTRL_ADDR 1 <= a < CLINT_SOFT CLINT_CTRL_ADDR 1 + 4) ->
        memory st2 a = memory st1 a.
Proof.
  destruct (readline 1030 1000 None [97; 10] s_zero) as [[[[r rx'] st1] e1]|] eqn:E;
    [|vm_compute in E; discriminate].
  exists r, rx', st1, e1. split.
  - reflexivity.
  - apply (send_has_no_length_check 1030 1000 1 [97; 10] s_zero r rx' st1 e1).
    + reflexivity.
    + unfold MAX_HARTS. lia.
    + left. unfold BUFSIZE, SMP_ADDR. lia.
    + lia.
    + exact E.
Defined.

(** C2, counterexample: a line of SMP_SIZE (the mailbox capacity) characters
    'A', typed at the message prompt, is not refused: test_ipi completes
    the send without any error, has written the mailbox (its first 1023
    characters and a NUL, in place of the zeros there before) and has raised
    hart 1's bit. *)
Lemma send_capacity_not_refused :
  match test_ipi_message 5000 1000 1 long_line s_zero with
  | Some (rx', st2, _) =>
      rx' = [] /\ load8 (memory s_zero) SMP_ADDR = 0 /\
      load8 (memory st2) SMP_ADDR = 65 /\ load8 (memory st2) (SMP_ADDR + 1022) = 65 /\
      load8 (memory st2) (SMP_ADDR + 1023) = 0 /\ result (is_pending 1) st2 = Some true
  | None => False
  end.
Proof. vm_compute. repeat split; reflexivity. Qed.
